(** * gprMax sub-gridding: solver loop, HSG sub-cycle and boundary exchange

    Shallow embedding of
      - gprMax/solvers.py            (create_G, create_solver, Solver.solve)
      - gprMax/subgrids/updates.py   (create_updates, SubgridUpdater.hsg_1/hsg_2)
      - gprMax/subgrids/subgrid_hsg.py (SubGridHSG and CUDASubGridHSG IS/OS
                                        injection)
    The per-cell update kernels, the PML, the sources and the output
    recording are opaque collaborators of this code: a call to one of them
    is recorded as an event, in program order. *)

From Stdlib Require Import ZArith QArith List Bool Lia.
From Stdlib Require String.
Import String.StringSyntax.
Delimit Scope string_scope with string.
Import ListNotations.
Open Scope Z_scope.

(** ** Python values, exceptions and the call log *)

Module Py.

(** Exception classes.  [ConfigurationError] is the class the
    specification names; no modelled function raises it. *)
Inductive exn : Type :=
| ValueError
| UnboundLocalError
| TypeError
| ConfigurationError.

Inductive result (A : Type) : Type :=
| Ok (a : A)
| Raise (e : exn).
Arguments Ok {A} a.
Arguments Raise {A} e.

(** A computation logs the calls it makes on opaque objects and ends
    with a value or with an exception.  The log is kept up to the point
    where an exception escapes. *)
Definition M (E A : Type) : Type := (list E * result A)%type.

Definition ret {E A} (a : A) : M E A := ([], Ok a).

Definition bind {E A B} (c : M E A) (k : A -> M E B) : M E B :=
  match c with
  | (l, Ok a) => let (l', r) := k a in (l ++ l', r)
  | (l, Raise e) => (l, Raise e)
  end.

Definition raise {E A} (e : exn) : M E A := ([], Raise e).

(** A call whose result is ignored, and a call whose result [v] is used. *)
Definition call {E} (e : E) : M E unit := ([e], Ok tt).
Definition call_ret {E V} (e : E) (v : V) : M E V := ([e], Ok v).

Definition trace {E A} (c : M E A) : list E := fst c.
Definition outcome {E A} (c : M E A) : result A := snd c.

(** [for x in xs: s = body(s, x)] *)
Fixpoint for_in {E I S} (xs : list I) (s : S) (body : S -> I -> M E S)
  : M E S :=
  match xs with
  | [] => ret s
  | x :: xs' => bind (body s x) (fun s' => for_in xs' s' body)
  end.

Definition for_each {E I} (xs : list I) (body : I -> M E unit) : M E unit :=
  for_in xs tt (fun _ x => body x).

(** [range(lo, hi)] *)
Definition range (lo hi : Z) : list Z :=
  map (fun i => lo + Z.of_nat i) (seq 0 (Z.to_nat (hi - lo))).

(** [int(x)] on a float truncates toward zero.  The floats that reach
    [int] in this code are halves of small integers, which binary
    floating point represents exactly, so they are modelled as
    rationals. *)
Definition int (x : Q) : Z := Z.quot (Qnum x) (Zpos (Qden x)).

(** [self.f(a1, ..., ak)] on a method declared with [params] parameters
    ([self] included, when it is declared): the bound call passes
    [k + 1] arguments and fails unless they are as many as declared. *)
Definition call_bound {A} (params k : nat) (body : A) : result A :=
  if Nat.eqb params (S k) then Ok body else Raise TypeError.

(** A local variable is unbound until its first assignment. *)
Definition load {E A} (v : option A) : M E A :=
  match v with
  | Some a => ret a
  | None => raise UnboundLocalError
  end.

End Py.

Import Py.

Declare Scope py_scope.
Delimit Scope py_scope with py.
Notation "x <- c ;; k" := (bind c (fun x => k))
  (at level 61, c at next level, right associativity) : py_scope.
Notation "c ;;; k" := (bind c (fun _ => k))
  (at level 61, right associativity) : py_scope.
Open Scope py_scope.

(** [a] occurs before [b] in [l]. *)
Definition precedes {A} (a b : A) (l : list A) : Prop :=
  exists l1 l2 l3, l = l1 ++ a :: l2 ++ b :: l3.

(** ** The Updates interface (gprMax/updates.py, opaque)

    The methods [Solver.solve] and [SubgridUpdater] call on an updates
    object. *)

Inductive method : Type :=
| time_start
| store_outputs
| store_snapshots (iteration : Z)
| update_magnetic
| update_magnetic_pml
| update_magnetic_sources
| hsg_2
| update_electric_a
| update_electric_pml
| update_electric_sources
| hsg_1
| update_electric_b
| calculate_memsolve (iteration : Z)
| finalise
| calculate_tsolve
| cleanup.

(** ** gprMax/subgrids/updates.py *)

Module Updates.

(** Methods of the precursor-node object called by the updater. *)
Module Prec.
Inductive method : Type :=
| update_electric
| update_magnetic
| interpolate_magnetic_in_time (m : Z)
| interpolate_electric_in_time (m : Z)
| calc_exact_magnetic_in_time
| calc_exact_electric_in_time.
End Prec.

(** Methods of the sub-grid object called by the updater. *)
Inductive grid_method : Type :=
| update_electric_is
| update_magnetic_is
| update_electric_os
| update_magnetic_os.

(** A call made by a SubgridUpdater: on itself (it is a CPUUpdates over
    the sub-grid), on its precursors, or on its sub-grid. *)
Inductive Call : Type :=
| Self (m : method)
| Precursors (m : Prec.method)
| SubGrid (m : grid_method).

(** [type(sg)] *)
Inductive pytype : Type :=
| SubGridHSG
| CUDASubGridHSG
| OtherType (name : nat).

Definition pytype_eqb (a b : pytype) : bool :=
  match a, b with
  | SubGridHSG, SubGridHSG => true
  | CUDASubGridHSG, CUDASubGridHSG => true
  | OtherType n, OtherType m => Nat.eqb n m
  | _, _ => false
  end.

(** What [create_updates] reads of an element of [G.subgrids]. *)
Record subgrid : Type := {
  sg_type : pytype;
  filter : bool;
  ratio : Z
}.

Inductive precursor_nodes : Type :=
| PrecursorNodes
| PrecursorNodesFiltered.

Record SubgridUpdater : Type := {
  grid : subgrid;
  precursors : precursor_nodes;
  source_iteration : Z
}.

(** [create_updates(G)], on [G.subgrids]; the result stands for
    [SubgridUpdates(G, updaters)]. *)
Fixpoint create_updates (subgrids : list subgrid)
  : result (list SubgridUpdater) :=
  match subgrids with
  | [] => Ok []
  | sg :: rest =>
      let sg_type := sg_type sg in
      let precursors :=
        if pytype_eqb sg_type SubGridHSG && filter sg
        then Ok PrecursorNodesFiltered
        else if pytype_eqb sg_type SubGridHSG && negb (filter sg)
        then Ok PrecursorNodes
        else Raise ValueError in
      match precursors with
      | Raise e => Raise e
      | Ok p =>
          let sgu := {| grid := sg; precursors := p;
                        source_iteration := 0 |} in
          match create_updates rest with
          | Ok updaters => Ok (sgu :: updaters)
          | Raise e => Raise e
          end
      end
  end.

(** [upper_m = int(sub_grid.ratio / 2 - 0.5)] *)
Definition upper_m (ratio : Z) : Z :=
  int (inject_Z ratio / (2 # 1) - (1 # 2)).

(** [int(m + sub_grid.ratio / 2 - 0.5)] *)
Definition shifted (m ratio : Z) : Z :=
  int (inject_Z m + inject_Z ratio / (2 # 1) - (1 # 2)).

(** Body of the loop of [SubgridUpdater.hsg_1] (lines 103-117). *)
Definition hsg_1_substep (ratio m : Z) : M Call unit :=
  call (Self store_outputs) ;;;
  call (Self update_electric_a) ;;;
  call (Self update_electric_pml) ;;;
  call (Precursors (Prec.interpolate_magnetic_in_time (shifted m ratio))) ;;;
  call (SubGrid update_electric_is) ;;;
  call (Self update_electric_sources) ;;;
  call (Self update_electric_b) ;;;
  call (Self update_magnetic) ;;;
  call (Self update_magnetic_pml) ;;;
  call (Precursors (Prec.interpolate_electric_in_time m)) ;;;
  call (SubGrid update_magnetic_is) ;;;
  call (Self update_magnetic_sources).

(** The part of [hsg_1] after the loop (lines 119-126). *)
Definition hsg_1_last : M Call unit :=
  call (Self store_outputs) ;;;
  call (Self update_electric_a) ;;;
  call (Self update_electric_pml) ;;;
  call (Precursors Prec.calc_exact_magnetic_in_time) ;;;
  call (SubGrid update_electric_is) ;;;
  call (Self update_electric_sources) ;;;
  call (Self update_electric_b) ;;;
  call (SubGrid update_electric_os).

(** [SubgridUpdater.hsg_1] for a sub-grid of the given ratio. *)
Definition hsg_1 (ratio : Z) : M Call unit :=
  call (Precursors Prec.update_electric) ;;;
  let upper_m := upper_m ratio in
  for_each (range 1 (upper_m + 1)) (hsg_1_substep ratio) ;;;
  hsg_1_last.

(** Body of the loop of [SubgridUpdater.hsg_2] (lines 143-157). *)
Definition hsg_2_substep (ratio m : Z) : M Call unit :=
  call (Self update_magnetic) ;;;
  call (Self update_magnetic_pml) ;;;
  call (Precursors (Prec.interpolate_electric_in_time (shifted m ratio))) ;;;
  call (SubGrid update_magnetic_is) ;;;
  call (Self update_magnetic_sources) ;;;
  call (Self store_outputs) ;;;
  call (Self update_electric_a) ;;;
  call (Self update_electric_pml) ;;;
  call (Precursors (Prec.interpolate_magnetic_in_time m)) ;;;
  call (SubGrid update_electric_is) ;;;
  call (Self update_electric_sources) ;;;
  call (Self update_electric_b).

(** The part of [hsg_2] after the loop (lines 159-164). *)
Definition hsg_2_last : M Call unit :=
  call (Self update_magnetic) ;;;
  call (Self update_magnetic_pml) ;;;
  call (Precursors Prec.calc_exact_electric_in_time) ;;;
  call (SubGrid update_magnetic_is) ;;;
  call (Self update_magnetic_sources) ;;;
  call (SubGrid update_magnetic_os).

(** [SubgridUpdater.hsg_2] for a sub-grid of the given ratio. *)
Definition hsg_2 (ratio : Z) : M Call unit :=
  call (Precursors Prec.update_magnetic) ;;;
  let upper_m := upper_m ratio in
  for_each (range 1 (upper_m + 1)) (hsg_2_substep ratio) ;;;
  hsg_2_last.

End Updates.

(** ** gprMax/solvers.py *)

Module Solver.

(** The keys of [config.sim_config.general] this file reads. *)
Record general : Type := {
  cpu : bool;
  cuda : bool;
  subgrid : bool
}.

Inductive grid_class : Type :=
| FDTDGrid
| CUDAGrid.

(** [create_G()]: [G] is assigned in neither branch when both flags are
    off, and [return G] then reads an unbound local. *)
Definition create_G (config : general) : result grid_class :=
  let G :=
    if cpu config then Some FDTDGrid
    else if cuda config then Some CUDAGrid
    else None in
  match G with
  | Some g => Ok g
  | None => Raise UnboundLocalError
  end.

(** The model object handed to [create_solver]. *)
Record model_grid : Type := {
  cls : grid_class;
  subgrids : list Updates.subgrid
}.

Inductive updates_object : Type :=
| SubgridUpdates (updaters : list Updates.SubgridUpdater)
| CPUUpdates
| CUDAUpdates.

Record Solver : Type := {
  updates : updates_object;
  hsg : bool
}.

(** Calls [create_solver] makes on the updates object it has built. *)
Inductive setup_call : Type :=
| adapt_dispersive_config
| set_dispersive_updates.

Definition lift {E A} (r : result A) : M E A := ([], r).

(** [create_solver(G)] *)
Definition create_solver (config : general) (G : model_grid)
  : M setup_call Solver :=
  solver <-
    (if subgrid config then
       updaters <- lift (Updates.create_updates (subgrids G)) ;;
       let updates := SubgridUpdates updaters in
       if cuda config then
         ret (Some {| updates := updates; hsg := true |})
       else
         let solver := {| updates := updates; hsg := true |} in
         call adapt_dispersive_config ;;;
         call set_dispersive_updates ;;;
         ret (Some solver)
     else if cpu config then
       let updates := CPUUpdates in
       let solver := {| updates := updates; hsg := false |} in
       call adapt_dispersive_config ;;;
       call set_dispersive_updates ;;;
       ret (Some solver)
     else if cuda config then
       let updates := CUDAUpdates in
       ret (Some {| updates := updates; hsg := false |})
     else ret None) ;;
  load solver.

Section Solve.

(** [config.sim_config.general['cuda']], read in every iteration. *)
Variable cuda_flag : bool.

(** What [calculate_tsolve()] and [calculate_memsolve(iteration)]
    return. *)
Variable V : Type.
Variable tsolve_value : V.
Variable memsolve_value : Z -> V.

(** The calls of one iteration, with [hsg_2] and [hsg_1] present exactly
    when sub-gridding is on. *)
Definition iteration_calls (hsg : bool) (iteration : Z) : list method :=
  [store_outputs; store_snapshots iteration; update_magnetic;
   update_magnetic_pml; update_magnetic_sources]
  ++ (if hsg then [hsg_2] else [])
  ++ [update_electric_a; update_electric_pml; update_electric_sources]
  ++ (if hsg then [hsg_1] else [])
  ++ [update_electric_b]
  ++ (if cuda_flag then [calculate_memsolve iteration] else []).

(** One pass through the body of the [for] loop of [Solver.solve]
    (lines 103-116).  The local [memsolve] is [None] while unbound;
    once bound it holds a value or Python's [None]. *)
Definition solve_iteration (self : Solver)
    (memsolve : option (option V)) (iteration : Z)
  : M method (option (option V)) :=
  call store_outputs ;;;
  call (store_snapshots iteration) ;;;
  call update_magnetic ;;;
  call update_magnetic_pml ;;;
  call update_magnetic_sources ;;;
  (if hsg self then call hsg_2 else ret tt) ;;;
  call update_electric_a ;;;
  call update_electric_pml ;;;
  call update_electric_sources ;;;
  (if hsg self then call hsg_1 else ret tt) ;;;
  call update_electric_b ;;;
  memsolve <-
    (if cuda_flag
     then v <- call_ret (calculate_memsolve iteration)
                        (memsolve_value iteration) ;; ret (Some v)
     else ret None) ;;
  ret (Some memsolve).

(** [Solver.solve(iterator)]; the iterator is the list of the values
    it yields. *)
Definition solve (self : Solver) (iterator : list Z)
  : M method (V * option V) :=
  call time_start ;;;
  memsolve <- for_in iterator None (solve_iteration self) ;;
  call finalise ;;;
  tsolve <- call_ret calculate_tsolve tsolve_value ;;
  call cleanup ;;;
  memsolve <- load memsolve ;;
  ret (tsolve, memsolve).

End Solve.

End Solver.

(** ** gprMax/subgrids/subgrid_hsg.py *)

Module HSG.

(** Arrays are objects in a store; an attribute such as [self.Ex] holds
    a reference, and two attributes can name the same array. *)
Definition ref : Type := positive.

Section Store.

(** Contents of a numpy or device array. *)
Variable Arr : Type.

Definition store : Type := ref -> Arr.

Definition upd (st : store) (r : ref) (a : Arr) : store :=
  fun r' => if Pos.eqb r' r then a else st r'.

(** Modelled from the spec: the compiled kernels of
    gprMax/cython/fields_updates_hsg and the CUDA templates of
    gprMax/cuda/hsg_field_updates are missing from the sources.  Each
    is taken as a function of its scalar arguments (in call order) and
    of the arrays it is handed, giving the new contents of its
    destination array [field]; the other arrays (coefficients, ID,
    incident fields) are read only (section 4.2: the injection
    overwrites the field value at the shell).  [shape1 a] is
    [a.shape[1]] and so on. *)
Record kernels : Type := {
  k_update_is : list Z -> Arr -> Arr -> Arr -> Arr -> Arr -> Arr;
  k_update_electric_os : list Z -> Arr -> Arr -> Arr -> Arr -> Arr;
  k_update_magnetic_os : list Z -> Arr -> Arr -> Arr -> Arr -> Arr;
  k_hsg_update_is :
    list Z -> list Z -> Arr -> Arr -> Arr -> Arr -> Arr -> Arr;
  shape1 : Arr -> Z;
  shape2 : Arr -> Z;
  shape3 : Arr -> Z
}.

Variable K : kernels.

(** [config.get_model_config().ompthreads] *)
Variable ompthreads : Z.

(** [cython_update_is(nwx, nwy, nwz, updatecoeffs, ID, n_boundary_cells,
    offset, nwl, nwm, nwn, face, field, inc_field_l, inc_field_u,
    lookup_id, sign_l, sign_u, mod, nthreads)] *)
Definition cython_update_is
    (nwx nwy nwz : Z) (updatecoeffs ID : ref)
    (n_boundary_cells offset nwl nwm nwn face : Z)
    (field inc_field_l inc_field_u : ref)
    (lookup_id sign_l sign_u mod_ nthreads : Z) (st : store) : store :=
  upd st field
    (k_update_is K
       [nwx; nwy; nwz; n_boundary_cells; offset; nwl; nwm; nwn; face;
        lookup_id; sign_l; sign_u; mod_; nthreads]
       (st updatecoeffs) (st ID) (st field)
       (st inc_field_l) (st inc_field_u)).

(** [cython_update_electric_os(updatecoeffsE, ID, face, l_l, l_u, m_l,
    m_u, n_l, n_u, nwn, lookup_id, field, inc_field, co, sign_n, sign_f,
    mid, r, s, nb, nthreads)] *)
Definition cython_update_electric_os
    (updatecoeffsE ID : ref) (face l_l l_u m_l m_u n_l n_u nwn : Z)
    (lookup_id : Z) (field inc_field : ref)
    (co sign_n sign_f mid r s nb nthreads : Z) (st : store) : store :=
  upd st field
    (k_update_electric_os K
       [face; l_l; l_u; m_l; m_u; n_l; n_u; nwn; lookup_id; co; sign_n;
        sign_f; mid; r; s; nb; nthreads]
       (st updatecoeffsE) (st ID) (st field) (st inc_field)).

(** [cython_update_magnetic_os], same argument list. *)
Definition cython_update_magnetic_os
    (updatecoeffsH ID : ref) (face l_l l_u m_l m_u n_l n_u nwn : Z)
    (lookup_id : Z) (field inc_field : ref)
    (co sign_n sign_f mid r s nb nthreads : Z) (st : store) : store :=
  upd st field
    (k_update_magnetic_os K
       [face; l_l; l_u; m_l; m_u; n_l; n_u; nwn; lookup_id; co; sign_n;
        sign_f; mid; r; s; nb; nthreads]
       (st updatecoeffsH) (st ID) (st field) (st inc_field)).

(** Keys of [IDlookup]. *)
Inductive component : Type := kEx | kEy | kEz | kHx | kHy | kHz.

(** Attributes of a grid (FDTDGrid) read by this file. *)
Record FDTDGrid : Type := {
  Ex : ref; Ey : ref; Ez : ref;
  Hx : ref; Hy : ref; Hz : ref;
  updatecoeffsE : ref;
  updatecoeffsH : ref;
  ID : ref;
  IDlookup : component -> Z;
  nx : Z; ny : Z; nz : Z
}.

(** A sub-grid is a grid with the attributes of the sub-grid base
    class. *)
Record SubGrid : Type := {
  as_grid :> FDTDGrid;
  nwx : Z; nwy : Z; nwz : Z;
  n_boundary_cells : Z;
  i0 : Z; j0 : Z; k0 : Z;
  i1 : Z; j1 : Z; k1 : Z;
  is_os_sep : Z;
  ratio : Z
}.

(** The 24 incident-field buffers of a precursor-node object. *)
Inductive buffer : Type :=
| ex_bottom | ex_top | ex_front | ex_back
| ey_bottom | ey_top | ey_left | ey_right
| ez_front | ez_back | ez_left | ez_right
| hx_bottom | hx_top | hx_front | hx_back
| hy_bottom | hy_top | hy_left | hy_right
| hz_front | hz_back | hz_left | hz_right.

(** [precursors.<b>] is [host precursors b]; [precursors.<b>_gpu] is
    [gpu precursors b]. *)
Record precursor_nodes : Type := {
  host : buffer -> ref;
  gpu : buffer -> ref
}.

(** The six field arrays of a grid. *)
Definition field_arrays (g : FDTDGrid) : list ref :=
  [Ex g; Ey g; Ez g; Hx g; Hy g; Hz g].

(** The main grid and the sub-grid own their field arrays: none of the
    six arrays of one is an array of the other. *)
Definition separate (main_grid : FDTDGrid) (sub_grid : SubGrid) : Prop :=
  forall r, In r (field_arrays main_grid) -> ~ In r (field_arrays sub_grid).

(** *** class SubGridHSG *)

(** [SubGridHSG.update_magnetic_is(precursors)] *)
Definition update_magnetic_is (self : SubGrid)
    (precursors : precursor_nodes) (st : store) : store :=
  (* bottom and top *)
  let st := cython_update_is (nwx self) (nwy self) (nwz self) (updatecoeffsH self) (ID self) (n_boundary_cells self) (-1) (nwx self) (nwy self + 1) (nwz self) 1 (Hy self) (host precursors ex_bottom) (host precursors ex_top) (IDlookup self kHy) 1 (-1) 3 ompthreads st in
  let st := cython_update_is (nwx self) (nwy self) (nwz self) (updatecoeffsH self) (ID self) (n_boundary_cells self) (-1) (nwx self + 1) (nwy self) (nwz self) 1 (Hx self) (host precursors ey_bottom) (host precursors ey_top) (IDlookup self kHx) (-1) 1 3 ompthreads st in
  (* left and right *)
  let st := cython_update_is (nwx self) (nwy self) (nwz self) (updatecoeffsH self) (ID self) (n_boundary_cells self) (-1) (nwy self) (nwz self + 1) (nwx self) 2 (Hz self) (host precursors ey_left) (host precursors ey_right) (IDlookup self kHz) 1 (-1) 1 ompthreads st in
  let st := cython_update_is (nwx self) (nwy self) (nwz self) (updatecoeffsH self) (ID self) (n_boundary_cells self) (-1) (nwy self + 1) (nwz self) (nwx self) 2 (Hy self) (host precursors ez_left) (host precursors ez_right) (IDlookup self kHy) (-1) 1 1 ompthreads st in
  (* front and back *)
  let st := cython_update_is (nwx self) (nwy self) (nwz self) (updatecoeffsH self) (ID self) (n_boundary_cells self) (-1) (nwx self) (nwz self + 1) (nwy self) 3 (Hz self) (host precursors ex_front) (host precursors ex_back) (IDlookup self kHz) (-1) 1 2 ompthreads st in
  let st := cython_update_is (nwx self) (nwy self) (nwz self) (updatecoeffsH self) (ID self) (n_boundary_cells self) (-1) (nwx self + 1) (nwz self) (nwy self) 3 (Hx self) (host precursors ez_front) (host precursors ez_back) (IDlookup self kHx) 1 (-1) 2 ompthreads st in
  st.

(** [SubGridHSG.update_electric_is(precursors)] *)
Definition update_electric_is (self : SubGrid)
    (precursors : precursor_nodes) (st : store) : store :=
  (* bottom and top *)
  let st := cython_update_is (nwx self) (nwy self) (nwz self) (updatecoeffsE self) (ID self) (n_boundary_cells self) 0 (nwx self) (nwy self + 1) (nwz self) 1 (Ex self) (host precursors hy_bottom) (host precursors hy_top) (IDlookup self kEx) 1 (-1) 3 ompthreads st in
  let st := cython_update_is (nwx self) (nwy self) (nwz self) (updatecoeffsE self) (ID self) (n_boundary_cells self) 0 (nwx self + 1) (nwy self) (nwz self) 1 (Ey self) (host precursors hx_bottom) (host precursors hx_top) (IDlookup self kEy) (-1) 1 3 ompthreads st in
  (* left and right *)
  let st := cython_update_is (nwx self) (nwy self) (nwz self) (updatecoeffsE self) (ID self) (n_boundary_cells self) 0 (nwy self) (nwz self + 1) (nwx self) 2 (Ey self) (host precursors hz_left) (host precursors hz_right) (IDlookup self kEy) 1 (-1) 1 ompthreads st in
  let st := cython_update_is (nwx self) (nwy self) (nwz self) (updatecoeffsE self) (ID self) (n_boundary_cells self) 0 (nwy self + 1) (nwz self) (nwx self) 2 (Ez self) (host precursors hy_left) (host precursors hy_right) (IDlookup self kEz) (-1) 1 1 ompthreads st in
  (* front and back *)
  let st := cython_update_is (nwx self) (nwy self) (nwz self) (updatecoeffsE self) (ID self) (n_boundary_cells self) 0 (nwx self) (nwz self + 1) (nwy self) 3 (Ex self) (host precursors hz_front) (host precursors hz_back) (IDlookup self kEx) (-1) 1 2 ompthreads st in
  let st := cython_update_is (nwx self) (nwy self) (nwz self) (updatecoeffsE self) (ID self) (n_boundary_cells self) 0 (nwx self + 1) (nwz self) (nwy self) 3 (Ez self) (host precursors hx_front) (host precursors hx_back) (IDlookup self kEz) 1 (-1) 2 ompthreads st in
  st.

(** [SubGridHSG.update_electric_os(main_grid)] *)
Definition update_electric_os (self : SubGrid) (main_grid : FDTDGrid)
    (st : store) : store :=
  let i_l := i0 self - is_os_sep self in
  let i_u := i1 self + is_os_sep self in
  let j_l := j0 self - is_os_sep self in
  let j_u := j1 self + is_os_sep self in
  let k_l := k0 self - is_os_sep self in
  let k_u := k1 self + is_os_sep self in
  (* Front and Back *)
  let st := cython_update_electric_os (updatecoeffsE main_grid) (ID main_grid) 3 i_l i_u k_l (k_u + 1) j_l j_u (nwy self) (IDlookup main_grid kEx) (Ex main_grid) (Hz self) 2 1 (-1) 1 (ratio self) (is_os_sep self) (n_boundary_cells self) ompthreads st in
  let st := cython_update_electric_os (updatecoeffsE main_grid) (ID main_grid) 3 i_l (i_u + 1) k_l k_u j_l j_u (nwy self) (IDlookup main_grid kEz) (Ez main_grid) (Hx self) 2 (-1) 1 0 (ratio self) (is_os_sep self) (n_boundary_cells self) ompthreads st in
  (* Left and Right *)
  let st := cython_update_electric_os (updatecoeffsE main_grid) (ID main_grid) 2 j_l j_u k_l (k_u + 1) i_l i_u (nwx self) (IDlookup main_grid kEy) (Ey main_grid) (Hz self) 1 (-1) 1 1 (ratio self) (is_os_sep self) (n_boundary_cells self) ompthreads st in
  let st := cython_update_electric_os (updatecoeffsE main_grid) (ID main_grid) 2 j_l (j_u + 1) k_l k_u i_l i_u (nwx self) (IDlookup main_grid kEz) (Ez main_grid) (Hy self) 1 1 (-1) 0 (ratio self) (is_os_sep self) (n_boundary_cells self) ompthreads st in
  (* Bottom and Top *)
  let st := cython_update_electric_os (updatecoeffsE main_grid) (ID main_grid) 1 i_l i_u j_l (j_u + 1) k_l k_u (nwz self) (IDlookup main_grid kEx) (Ex main_grid) (Hy self) 3 (-1) 1 1 (ratio self) (is_os_sep self) (n_boundary_cells self) ompthreads st in
  let st := cython_update_electric_os (updatecoeffsE main_grid) (ID main_grid) 1 i_l (i_u + 1) j_l j_u k_l k_u (nwz self) (IDlookup main_grid kEy) (Ey main_grid) (Hx self) 3 1 (-1) 0 (ratio self) (is_os_sep self) (n_boundary_cells self) ompthreads st in
  st.

(** [SubGridHSG.update_magnetic_os(main_grid)] *)
Definition update_magnetic_os (self : SubGrid) (main_grid : FDTDGrid)
    (st : store) : store :=
  let i_l := i0 self - is_os_sep self in
  let i_u := i1 self + is_os_sep self in
  let j_l := j0 self - is_os_sep self in
  let j_u := j1 self + is_os_sep self in
  let k_l := k0 self - is_os_sep self in
  let k_u := k1 self + is_os_sep self in
  (* Front and back *)
  let st := cython_update_magnetic_os (updatecoeffsH main_grid) (ID main_grid) 3 i_l i_u k_l (k_u + 1) (j_l - 1) j_u (nwy self) (IDlookup main_grid kHz) (Hz main_grid) (Ex self) 2 1 (-1) 1 (ratio self) (is_os_sep self) (n_boundary_cells self) ompthreads st in
  let st := cython_update_magnetic_os (updatecoeffsH main_grid) (ID main_grid) 3 i_l (i_u + 1) k_l k_u (j_l - 1) j_u (nwy self) (IDlookup main_grid kHx) (Hx main_grid) (Ez self) 2 (-1) 1 0 (ratio self) (is_os_sep self) (n_boundary_cells self) ompthreads st in
  (* Left and Right *)
  let st := cython_update_magnetic_os (updatecoeffsH main_grid) (ID main_grid) 2 j_l j_u k_l (k_u + 1) (i_l - 1) i_u (nwx self) (IDlookup main_grid kHz) (Hz main_grid) (Ey self) 1 (-1) 1 1 (ratio self) (is_os_sep self) (n_boundary_cells self) ompthreads st in
  let st := cython_update_magnetic_os (updatecoeffsH main_grid) (ID main_grid) 2 j_l (j_u + 1) k_l k_u (i_l - 1) i_u (nwx self) (IDlookup main_grid kHy) (Hy main_grid) (Ez self) 1 1 (-1) 0 (ratio self) (is_os_sep self) (n_boundary_cells self) ompthreads st in
  (* bottom and top *)
  let st := cython_update_magnetic_os (updatecoeffsH main_grid) (ID main_grid) 1 i_l i_u j_l (j_u + 1) (k_l - 1) k_u (nwz self) (IDlookup main_grid kHy) (Hy main_grid) (Ex self) 3 (-1) 1 1 (ratio self) (is_os_sep self) (n_boundary_cells self) ompthreads st in
  let st := cython_update_magnetic_os (updatecoeffsH main_grid) (ID main_grid) 1 i_l (i_u + 1) j_l j_u (k_l - 1) k_u (nwz self) (IDlookup main_grid kHx) (Hx main_grid) (Ey self) 3 1 (-1) 0 (ratio self) (is_os_sep self) (n_boundary_cells self) ompthreads st in
  st.

(** *** class CUDASubGridHSG *)

(** Device-side attributes.  An attribute rebound to a freshly
    allocated array ([to_gpu], [get]) is modelled as its array being
    overwritten. *)
Record CUDASubGrid : Type := {
  as_subgrid :> SubGrid;
  Ex_gpu : ref; Ey_gpu : ref; Ez_gpu : ref;
  Hx_gpu : ref; Hy_gpu : ref; Hz_gpu : ref;
  updatecoeffsE_gpu : ref;
  updatecoeffsH_gpu : ref;
  ID_gpu : ref;
  tpb : Z * Z * Z;
  bpg : Z * Z * Z
}.

(** [np.int32(x)] *)
Definition int32 (x : Z) : Z := (x + 2 ^ 31) mod 2 ^ 32 - 2 ^ 31.

Definition to_gpu (precursors : precursor_nodes) (st : store)
    (b : buffer) : store :=
  upd st (gpu precursors b) (st (host precursors b)).

(** Body of [__htod_precursor_fields(precursors, offset)]. *)
Definition htod_precursor_fields (precursors : precursor_nodes)
    (offset : Z) (st : store) : store :=
  if offset =? -1 then
    fold_left (to_gpu precursors)
      [ex_bottom; ex_top; ex_front; ex_back;
       ey_bottom; ey_top; ey_left; ey_right;
       ez_front; ez_back; ez_left; ez_right] st
  else
    fold_left (to_gpu precursors)
      [hx_bottom; hx_top; hx_front; hx_back;
       hy_bottom; hy_top; hy_left; hy_right;
       hz_front; hz_back; hz_left; hz_right] st.

(** One launch of the compiled [hsg_update_is] kernel; [template]
    holds the values substituted into the kernel source. *)
Definition hsg_update_is_gpu (template : list Z)
    (nwx nwy nwz n_boundary_cells offset nwl nwm face co : Z)
    (sign_a sign_b lookup_id pshape : Z)
    (updatecoeffs ID field inc_l inc_u : ref)
    (block grid : Z * Z * Z) (st : store) : store :=
  upd st field
    (k_hsg_update_is K template
       [nwx; nwy; nwz; n_boundary_cells; offset; nwl; nwm; face; co;
        sign_a; sign_b; lookup_id; pshape;
        fst (fst block); snd (fst block); snd block;
        fst (fst grid); snd (fst grid); snd grid]
       (st updatecoeffs) (st ID) (st field) (st inc_l) (st inc_u)).

(** Lines 351-477 of [CUDASubGridHSG.update_electric_is]: the kernel
    is compiled, launched six times, and the three electric arrays are
    copied back to the host. *)
Definition update_electric_is_launches (self : CUDASubGrid)
    (precursors : precursor_nodes) (st : store) : store :=
  let template :=
    [shape1 K (st (updatecoeffsH self));
     nx self + 1; ny self + 1; nz self + 1;
     shape1 K (st (ID self)); shape2 K (st (ID self));
     shape3 K (st (ID self))] in
  let hsg_update_is_gpu := hsg_update_is_gpu template in
  (* Bottom and Top *)
  let st := hsg_update_is_gpu
    (int32 (nwx self)) (int32 (nwy self)) (int32 (nwz self))
    (int32 (n_boundary_cells self))
    (int32 0)
    (int32 (nwx self)) (int32 (nwy self + 1))
    (int32 1)
    (int32 3)
    (int32 1) (int32 (-1))
    (int32 (IDlookup self kEx))
    (int32 (shape1 K (st (host precursors hy_bottom))))
    (updatecoeffsE_gpu self)
    (ID_gpu self)
    (Ex_gpu self)
    (gpu precursors hy_bottom)
    (gpu precursors hy_top)
    (tpb self) (bpg self) st in
  let st := hsg_update_is_gpu
    (int32 (nwx self)) (int32 (nwy self)) (int32 (nwz self))
    (int32 (n_boundary_cells self))
    (int32 0)
    (int32 (nwx self + 1)) (int32 (nwy self))
    (int32 1)
    (int32 3)
    (int32 (-1)) (int32 1)
    (int32 (IDlookup self kEy))
    (int32 (shape1 K (st (host precursors hx_bottom))))
    (updatecoeffsE_gpu self)
    (ID_gpu self)
    (Ey_gpu self)
    (gpu precursors hx_bottom)
    (gpu precursors hx_top)
    (tpb self) (bpg self) st in
  (* Left and Right *)
  let st := hsg_update_is_gpu
    (int32 (nwx self)) (int32 (nwy self)) (int32 (nwz self))
    (int32 (n_boundary_cells self))
    (int32 0)
    (int32 (nwy self)) (int32 (nwz self + 1))
    (int32 2)
    (int32 1)
    (int32 1) (int32 (-1))
    (int32 (IDlookup self kEy))
    (int32 (shape1 K (st (host precursors hz_left))))
    (updatecoeffsE_gpu self)
    (ID_gpu self)
    (Ey_gpu self)
    (gpu precursors hz_left)
    (gpu precursors hz_right)
    (tpb self) (bpg self) st in
  let st := hsg_update_is_gpu
    (int32 (nwx self)) (int32 (nwy self)) (int32 (nwz self))
    (int32 (n_boundary_cells self))
    (int32 0)
    (int32 (nwy self + 1)) (int32 (nwz self))
    (int32 2)
    (int32 1)
    (int32 (-1)) (int32 1)
    (int32 (IDlookup self kEz))
    (int32 (shape1 K (st (host precursors hy_left))))
    (updatecoeffsE_gpu self)
    (ID_gpu self)
    (Ez_gpu self)
    (gpu precursors hy_left)
    (gpu precursors hy_right)
    (tpb self) (bpg self) st in
  (* Front and Back *)
  let st := hsg_update_is_gpu
    (int32 (nwx self)) (int32 (nwy self)) (int32 (nwz self))
    (int32 (n_boundary_cells self))
    (int32 0)
    (int32 (nwx self)) (int32 (nwz self + 1))
    (int32 3)
    (int32 2)
    (int32 (-1)) (int32 1)
    (int32 (IDlookup self kEx))
    (int32 (shape1 K (st (host precursors hz_front))))
    (updatecoeffsE_gpu self)
    (ID_gpu self)
    (Ex_gpu self)
    (gpu precursors hz_front)
    (gpu precursors hz_back)
    (tpb self) (bpg self) st in
  let st := hsg_update_is_gpu
    (int32 (nwx self)) (int32 (nwy self)) (int32 (nwz self))
    (int32 (n_boundary_cells self))
    (int32 0)
    (int32 (nwx self + 1)) (int32 (nwz self))
    (int32 3)
    (int32 2)
    (int32 1) (int32 (-1))
    (int32 (IDlookup self kEz))
    (int32 (shape1 K (st (host precursors hx_front))))
    (updatecoeffsE_gpu self)
    (ID_gpu self)
    (Ex_gpu self)
    (gpu precursors hx_front)
    (gpu precursors hx_back)
    (tpb self) (bpg self) st in
  let st := upd st (Ex self) (st (Ex_gpu self)) in
  let st := upd st (Ey self) (st (Ey_gpu self)) in
  let st := upd st (Ez self) (st (Ez_gpu self)) in
  st.

(** [CUDASubGridHSG.update_electric_is(precursors)].  Its first
    statement calls [self.__htod_precursor_fields(precursors, 0)], a
    method declared with the two parameters [(precursors, offset)]. *)
Definition cuda_update_electric_is (self : CUDASubGrid)
    (precursors : precursor_nodes) (st : store) : result store :=
  match call_bound 2 2 (htod_precursor_fields precursors 0 st) with
  | Raise e => Raise e
  | Ok st => Ok (update_electric_is_launches self precursors st)
  end.

End Store.

End HSG.

(** ** Precursor nodes (gprMax/subgrids/precursor_nodes.py) *)

Module Precursor.

(** Modelled from the spec: precursor_nodes.py is missing from the
    sources.  Section 4.1: [interpolate_*_in_time(step)] gives, for each
    node of a face buffer, the value linearly interpolated between the
    "before" and the "after" coarse sample, proportional to
    [step / ratio]; [calc_exact_*_in_time()] gives the "after" sample
    itself.  Field values are taken in the rationals. *)
Definition interpolate_node (ratio step : Z) (before after : Q) : Q :=
  let c := (inject_Z step / inject_Z ratio)%Q in
  (c * (after - before) + before)%Q.

(** Modelled from the spec: the interpolation of a whole buffer, node
    by node (unfiltered variant). *)
Definition interpolate_in_time (ratio step : Z) (before after : list Q)
  : list Q :=
  map (fun p => interpolate_node ratio step (fst p) (snd p))
      (combine before after).

(** Modelled from the spec: the exact value at the coincidence step. *)
Definition calc_exact_in_time (before after : list Q) : list Q := after.

End Precursor.

(** ** A concrete sub-grid, with kernels that record what they are given *)

Module Example.

Import HSG.

(** Each kernel appends to its destination array the material lookup and
    the sign pair it was called with, followed by the contents of the
    incident-field arrays it was handed. *)
Definition recording : kernels (list Z) :=
  {| k_update_is := fun sc _ _ field inc_l inc_u =>
       field ++ [nth 9 sc 0; nth 10 sc 0; nth 11 sc 0] ++ inc_l ++ inc_u;
     k_update_electric_os := fun sc _ _ field inc =>
       field ++ [nth 8 sc 0; nth 10 sc 0; nth 11 sc 0] ++ inc;
     k_update_magnetic_os := fun sc _ _ field inc =>
       field ++ [nth 8 sc 0; nth 10 sc 0; nth 11 sc 0] ++ inc;
     k_hsg_update_is := fun _ sc _ _ field inc_l inc_u =>
       field ++ [nth 11 sc 0; nth 9 sc 0; nth 10 sc 0] ++ inc_l ++ inc_u;
     shape1 := fun _ => 1;
     shape2 := fun _ => 1;
     shape3 := fun _ => 1 |}.

Definition lookup (c : component) : Z :=
  match c with
  | kEx => 0 | kEy => 1 | kEz => 2 | kHx => 3 | kHy => 4 | kHz => 5
  end.

Definition main_grid : FDTDGrid :=
  {| Ex := 21; Ey := 22; Ez := 23; Hx := 24; Hy := 25; Hz := 26;
     updatecoeffsE := 27; updatecoeffsH := 28; ID := 29;
     IDlookup := lookup; nx := 40; ny := 40; nz := 40 |}%positive.

Definition sub_grid : SubGrid :=
  {| as_grid :=
       {| Ex := 1; Ey := 2; Ez := 3; Hx := 4; Hy := 5; Hz := 6;
          updatecoeffsE := 7; updatecoeffsH := 8; ID := 9;
          IDlookup := lookup; nx := 64; ny := 64; nz := 64 |}%positive;
     nwx := 30; nwy := 30; nwz := 30;
     n_boundary_cells := 17;
     i0 := 10; j0 := 10; k0 := 10;
     i1 := 20; j1 := 20; k1 := 20;
     is_os_sep := 3;
     ratio := 3 |}.

Definition cuda_sub_grid : CUDASubGrid :=
  {| as_subgrid := sub_grid;
     Ex_gpu := 11; Ey_gpu := 12; Ez_gpu := 13;
     Hx_gpu := 14; Hy_gpu := 15; Hz_gpu := 16;
     updatecoeffsE_gpu := 17; updatecoeffsH_gpu := 18; ID_gpu := 19;
     tpb := (128, 1, 1)%Z; bpg := (2146, 1, 1)%Z |}%positive.

Definition buffer_index (b : buffer) : positive :=
  match b with
  | ex_bottom => 1 | ex_top => 2 | ex_front => 3 | ex_back => 4
  | ey_bottom => 5 | ey_top => 6 | ey_left => 7 | ey_right => 8
  | ez_front => 9 | ez_back => 10 | ez_left => 11 | ez_right => 12
  | hx_bottom => 13 | hx_top => 14 | hx_front => 15 | hx_back => 16
  | hy_bottom => 17 | hy_top => 18 | hy_left => 19 | hy_right => 20
  | hz_front => 21 | hz_back => 22 | hz_left => 23 | hz_right => 24
  end%positive.

Definition precursors : precursor_nodes :=
  {| host := fun b => (100 + buffer_index b)%positive;
     gpu := fun b => (200 + buffer_index b)%positive |}.

(** Every host array holds its own reference as a tag; the device copies
    of the sub-grid arrays (11-19) hold what their host arrays (1-9)
    hold; the device precursor buffers are empty until uploaded. *)
Definition st0 : store (list Z) :=
  fun r =>
    if (r <? 10)%positive then [Zpos r]
    else if (r <? 20)%positive then [Zpos r - 10]
    else if (r <? 200)%positive then [Zpos r]
    else [].

End Example.

(** ** gprMax/cmds_geometry/add_surface_roughness.py *)

Module Roughness.

(** Exceptions that leave [AddSurfaceRoughness.create].  [KeyError]
    carries the missing key; [Other] stands for whatever
    [uip.check_box_points] raises. *)
Inductive exn : Type :=
| KeyError (key : String.string)
| ValueError
| IndexError
| UnboundLocalError
| Other (code : nat).

Inductive outcome (A : Type) : Type :=
| Done (a : A)
| Raised (e : exn).
Arguments Done {A} a.
Arguments Raised {A} e.

Definition and_then {A B} (c : outcome A) (k : A -> outcome B) : outcome B :=
  match c with
  | Done a => k a
  | Raised e => Raised e
  end.

Notation "x <-- c ; k" := (and_then c (fun x => k))
  (at level 61, c at next level, right associativity).

(** [d[key]] on a dict entry that is present or absent. *)
Definition getitem {A} (key : String.string) (v : option A) : outcome A :=
  match v with
  | Some a => Done a
  | None => Raised (KeyError key)
  end.
Arguments getitem {A} key%_string v.

(** [a[i]] on an array. *)
Definition index {A} (a : list A) (i : nat) : outcome A :=
  match nth_error a i with
  | Some x => Done x
  | None => Raised IndexError
  end.

(** Reading a local that may not have been assigned. *)
Definition load {A} (v : option A) : outcome A :=
  match v with
  | Some a => Done a
  | None => Raised UnboundLocalError
  end.

Section Create.

(** Floating-point values are kept abstract: the code compares them with
    zero and divides one by another before rounding.  [is_negative x] is
    [x < 0]; [round_div a b] is [round_value(a / b)]. *)
Variable F : Type.
Variable is_negative : F -> bool.
Variable round_div : F -> F -> Z.

(** A point in metres and a point in cells. *)
Definition point : Type := (F * F * F)%type.
Definition cell : Type := (Z * Z * Z)%type.

(** The keys [create] reads in [self.kwargs], each present or absent. *)
Record kwargs_dict : Type := {
  kw_p1 : option point;
  kw_p2 : option point;
  kw_frac_dim : option F;
  kw_weighting : option (list F);
  kw_limits : option (list F);
  kw_fractal_box_id : option String.string;
  kw_seed : option Z
}.

(** Rotation parameters are passed on untouched. *)
Variable Axis Angle Origin : Type.

Record AddSurfaceRoughness : Type := {
  kwargs : kwargs_dict;
  axis : option Axis;
  angle : option Angle;
  origin : option Origin;
  dorotate : bool
}.

(** Array produced by [generate_fractal_surface]. *)
Variable Generated : Type.

Record FractalSurface : Type := {
  s_xs : Z; s_xf : Z; s_ys : Z; s_yf : Z; s_zs : Z; s_zf : Z;
  dimension : F;
  surfaceID : String.string;
  fractalrange : Z * Z;
  operatingonID : String.string;
  seed : option Z;
  weighting : list F;
  fractalsurface : option Generated
}.

Record FractalVolume : Type := {
  ID : String.string;
  xs : Z; xf : Z; ys : Z; yf : Z; zs : Z; zf : Z;
  fractalsurfaces : list FractalSurface
}.

Record FDTDGrid : Type := {
  dx : F; dy : F; dz : F;
  nx : Z; ny : Z; nz : Z;
  fractalvolumes : list FractalVolume
}.

(** Collaborators that are not part of this file:
    [uip.check_box_points(p1, p2, name)] returns the two points in cells
    or raises; [rotate_2point_object(pts, axis, angle, origin)] returns
    the two rotated points; [surface.generate_fractal_surface(grid)]
    fills [surface.fractalsurface]. *)
Variable check_box_points : point -> point -> outcome (cell * cell).
Variable rotate_2point_object :
  point * point -> option Axis -> option Angle -> option Origin
  -> point * point.
Variable generate_fractal_surface : FDTDGrid -> FractalSurface -> Generated.

(** [AddSurfaceRoughness.rotate(axis, angle, origin=None)] *)
Definition rotate (self : AddSurfaceRoughness) (axis_ : Axis)
    (angle_ : Angle) (origin_ : option Origin) : AddSurfaceRoughness :=
  {| kwargs := kwargs self;
     axis := Some axis_;
     angle := Some angle_;
     origin := origin_;
     dorotate := true |}.

(** [AddSurfaceRoughness.__dorotate()] *)
Definition do_rotate (self : AddSurfaceRoughness)
  : outcome AddSurfaceRoughness :=
  p1 <-- getitem "p1" (kw_p1 (kwargs self)) ;
  p2 <-- getitem "p2" (kw_p2 (kwargs self)) ;
  let pts := (p1, p2) in
  let rot_pts := rotate_2point_object pts (axis self) (angle self)
                   (origin self) in
  let kw := kwargs self in
  Done {| kwargs := {| kw_p1 := Some (fst rot_pts);
                       kw_p2 := Some (snd rot_pts);
                       kw_frac_dim := kw_frac_dim kw;
                       kw_weighting := kw_weighting kw;
                       kw_limits := kw_limits kw;
                       kw_fractal_box_id := kw_fractal_box_id kw;
                       kw_seed := kw_seed kw |};
          axis := axis self;
          angle := angle self;
          origin := origin self;
          dorotate := dorotate self |}.

(** Lines 110-176 of [create]: the orientation of the requested surface
    and the range of the roughness in cells.  The locals
    [requestedsurface] and [fractalrange] are [None] while unassigned. *)
Definition orientation (grid : FDTDGrid) (volume : FractalVolume)
    (limits : list F) (p1 p2 : cell)
  : outcome (option String.string * option (Z * Z)) :=
  let '(xs_, ys_, zs_) := p1 in
  let '(xf_, yf_, zf_) := p2 in
  if xs_ =? xf_ then
    if (ys_ =? yf_) || (zs_ =? zf_) then Raised ValueError
    else if negb (xs_ =? xs volume) && negb (xs_ =? xf volume)
    then Raised ValueError
    else
      l0 <-- index limits 0 ;
      l1 <-- index limits 1 ;
      let fractalrange := (round_div l0 (dx grid), round_div l1 (dx grid)) in
      (* xminus surface *)
      if xs_ =? xs volume then
        if (fst fractalrange <? 0) || (snd fractalrange >? xf volume)
        then Raised ValueError
        else Done (Some "xminus"%string, Some fractalrange)
      (* xplus surface *)
      else if xf_ =? xf volume then
        if (fst fractalrange <? xs volume) || (snd fractalrange >? nx grid)
        then Raised ValueError
        else Done (Some "xplus"%string, Some fractalrange)
      else Done (None, Some fractalrange)
  else if ys_ =? yf_ then
    if (xs_ =? xf_) || (zs_ =? zf_) then Raised ValueError
    else if negb (ys_ =? ys volume) && negb (ys_ =? yf volume)
    then Raised ValueError
    else
      l0 <-- index limits 0 ;
      l1 <-- index limits 1 ;
      let fractalrange := (round_div l0 (dy grid), round_div l1 (dy grid)) in
      (* yminus surface *)
      if ys_ =? ys volume then
        if (fst fractalrange <? 0) || (snd fractalrange >? yf volume)
        then Raised ValueError
        else Done (Some "yminus"%string, Some fractalrange)
      (* yplus surface *)
      else if yf_ =? yf volume then
        if (fst fractalrange <? ys volume) || (snd fractalrange >? ny grid)
        then Raised ValueError
        else Done (Some "yplus"%string, Some fractalrange)
      else Done (None, Some fractalrange)
  else if zs_ =? zf_ then
    if (xs_ =? xf_) || (ys_ =? yf_) then Raised ValueError
    else if negb (zs_ =? zs volume) && negb (zs_ =? zf volume)
    then Raised ValueError
    else
      l0 <-- index limits 0 ;
      l1 <-- index limits 1 ;
      let fractalrange := (round_div l0 (dz grid), round_div l1 (dz grid)) in
      (* zminus surface *)
      if zs_ =? zs volume then
        if (fst fractalrange <? 0) || (snd fractalrange >? zf volume)
        then Raised ValueError
        else Done (Some "zminus"%string, Some fractalrange)
      (* zplus surface *)
      else if zf_ =? zf volume then
        if (fst fractalrange <? zs volume) || (snd fractalrange >? nz grid)
        then Raised ValueError
        else Done (Some "zplus"%string, Some fractalrange)
      else Done (None, Some fractalrange)
  else Raised ValueError.

(** [volume.fractalsurfaces.append(surface)] on the volume object that
    [volumes[0]] names: the first volume of the grid with the given ID. *)
Fixpoint append_surface (volumes : list FractalVolume)
    (fractal_box_id : String.string) (surface : FractalSurface)
  : list FractalVolume :=
  match volumes with
  | [] => []
  | volume :: rest =>
      if String.eqb (ID volume) fractal_box_id then
        {| ID := ID volume;
           xs := xs volume; xf := xf volume;
           ys := ys volume; yf := yf volume;
           zs := zs volume; zf := zf volume;
           fractalsurfaces := fractalsurfaces volume ++ [surface] |} :: rest
      else volume :: append_surface rest fractal_box_id surface
  end.

(** [AddSurfaceRoughness.create(grid, uip)]: the command and the grid as
    they are left when [create] returns. *)
Definition create (self : AddSurfaceRoughness) (grid : FDTDGrid)
  : outcome (AddSurfaceRoughness * FDTDGrid) :=
  p1 <-- getitem "p1" (kw_p1 (kwargs self)) ;
  p2 <-- getitem "p2" (kw_p2 (kwargs self)) ;
  frac_dim <-- getitem "frac_dim" (kw_frac_dim (kwargs self)) ;
  weighting_ <-- getitem "weighting" (kw_weighting (kwargs self)) ;
  limits <-- getitem "limits" (kw_limits (kwargs self)) ;
  fractal_box_id <--
    getitem "fractal_box_id" (kw_fractal_box_id (kwargs self)) ;
  let seed_ := kw_seed (kwargs self) in
  self <-- (if dorotate self then do_rotate self else Done self) ;
  (* Get the correct fractal volume *)
  let volumes :=
    filter (fun volume => String.eqb (ID volume) fractal_box_id)
           (fractalvolumes grid) in
  volume <-- match volumes with
             | volume :: _ => Done volume
             | [] => Raised ValueError
             end ;
  pts <-- check_box_points p1 p2 ;
  let '(p1, p2) := pts in
  let '(xs_, ys_, zs_) := p1 in
  let '(xf_, yf_, zf_) := p2 in
  if is_negative frac_dim then Raised ValueError else
  w0 <-- index weighting_ 0 ;
  if is_negative w0 then Raised ValueError else
  w1 <-- index weighting_ 1 ;
  if is_negative w1 then Raised ValueError else
  (* Check for valid orientations *)
  locals <-- orientation grid volume limits p1 p2 ;
  let '(requestedsurface, fractalrange_) := locals in
  requestedsurface <-- load requestedsurface ;
  fractalrange_ <-- load fractalrange_ ;
  let surface :=
    {| s_xs := xs_; s_xf := xf_; s_ys := ys_; s_yf := yf_;
       s_zs := zs_; s_zf := zf_;
       dimension := frac_dim;
       surfaceID := requestedsurface;
       fractalrange := fractalrange_;
       operatingonID := ID volume;
       seed := seed_;
       weighting := weighting_;
       fractalsurface := None |} in
  (* List of existing surfaces IDs *)
  let existingsurfaceIDs := map surfaceID (fractalsurfaces volume) in
  if existsb (String.eqb (surfaceID surface)) existingsurfaceIDs
  then Raised ValueError
  else
    let surface :=
      {| s_xs := s_xs surface; s_xf := s_xf surface;
         s_ys := s_ys surface; s_yf := s_yf surface;
         s_zs := s_zs surface; s_zf := s_zf surface;
         dimension := dimension surface;
         surfaceID := surfaceID surface;
         fractalrange := fractalrange surface;
         operatingonID := operatingonID surface;
         seed := seed surface;
         weighting := weighting surface;
         fractalsurface := Some (generate_fractal_surface grid surface) |} in
    Done (self,
          {| dx := dx grid; dy := dy grid; dz := dz grid;
             nx := nx grid; ny := ny grid; nz := nz grid;
             fractalvolumes :=
               append_surface (fractalvolumes grid) fractal_box_id surface |}).

(** The surface [create] appends, from what it has read and checked. *)
Definition built_surface (grid : FDTDGrid) (volume : FractalVolume)
    (frac_dim : F) (weighting_ : list F) (seed_ : option Z)
    (p1 p2 : cell) (name : String.string) (range_ : Z * Z)
  : FractalSurface :=
  let pre :=
    {| s_xs := fst (fst p1); s_xf := fst (fst p2);
       s_ys := snd (fst p1); s_yf := snd (fst p2);
       s_zs := snd p1; s_zf := snd p2;
       dimension := frac_dim;
       surfaceID := name;
       fractalrange := range_;
       operatingonID := ID volume;
       seed := seed_;
       weighting := weighting_;
       fractalsurface := None |} in
  {| s_xs := fst (fst p1); s_xf := fst (fst p2);
     s_ys := snd (fst p1); s_yf := snd (fst p2);
     s_zs := snd p1; s_zf := snd p2;
     dimension := frac_dim;
     surfaceID := name;
     fractalrange := range_;
     operatingonID := ID volume;
     seed := seed_;
     weighting := weighting_;
     fractalsurface := Some (generate_fractal_surface grid pre) |}.

(** Everything that holds when [create] returns [(self', grid')]. *)
Inductive created (self : AddSurfaceRoughness) (grid : FDTDGrid)
    (self' : AddSurfaceRoughness) (grid' : FDTDGrid) : Prop :=
| created_intro
    (p1 p2 : point) (frac_dim : F) (weighting_ limits : list F)
    (fractal_box_id : String.string)
    (volume : FractalVolume) (others : list FractalVolume)
    (cell1 cell2 : cell) (name : String.string) (range_ : Z * Z)
    (w0 w1 : F)
    (has_p1 : kw_p1 (kwargs self) = Some p1)
    (has_p2 : kw_p2 (kwargs self) = Some p2)
    (has_frac_dim : kw_frac_dim (kwargs self) = Some frac_dim)
    (has_weighting : kw_weighting (kwargs self) = Some weighting_)
    (has_limits : kw_limits (kwargs self) = Some limits)
    (has_id : kw_fractal_box_id (kwargs self) = Some fractal_box_id)
    (found :
       filter (fun volume => String.eqb (ID volume) fractal_box_id)
              (fractalvolumes grid) = volume :: others)
    (checked : check_box_points p1 p2 = Done (cell1, cell2))
    (dim_ok : is_negative frac_dim = false)
    (w0_at : nth_error weighting_ 0 = Some w0)
    (w0_ok : is_negative w0 = false)
    (w1_at : nth_error weighting_ 1 = Some w1)
    (w1_ok : is_negative w1 = false)
    (oriented :
       orientation grid volume limits cell1 cell2
       = Done (Some name, Some range_))
    (fresh :
       existsb (String.eqb name) (map surfaceID (fractalsurfaces volume))
       = false)
    (self_after :
       (if dorotate self then do_rotate self else Done self) = Done self')
    (grid_left :
       grid' =
         {| dx := dx grid; dy := dy grid; dz := dz grid;
            nx := nx grid; ny := ny grid; nz := nz grid;
            fractalvolumes :=
              append_surface (fractalvolumes grid) fractal_box_id
                (built_surface grid volume frac_dim weighting_
                   (kw_seed (kwargs self)) cell1 cell2 name range_) |}).

(** The requested surface, named [name], lies on the matching external
    face of the volume, is flat along exactly one axis, and its roughness
    range fits between the opposite face (or the domain edge) and the
    face. *)
Definition on_face (grid : FDTDGrid) (volume : FractalVolume)
    (p1 p2 : cell) (name : String.string) (range_ : Z * Z) : Prop :=
  let '(x1, y1, z1) := p1 in
  let '(x2, y2, z2) := p2 in
  (name = "xminus"%string /\ x1 = x2 /\ y1 <> y2 /\ z1 <> z2
   /\ x1 = xs volume /\ 0 <= fst range_ /\ snd range_ <= xf volume)
  \/ (name = "xplus"%string /\ x1 = x2 /\ y1 <> y2 /\ z1 <> z2
      /\ x1 <> xs volume /\ x2 = xf volume
      /\ xs volume <= fst range_ /\ snd range_ <= nx grid)
  \/ (name = "yminus"%string /\ x1 <> x2 /\ y1 = y2 /\ z1 <> z2
      /\ y1 = ys volume /\ 0 <= fst range_ /\ snd range_ <= yf volume)
  \/ (name = "yplus"%string /\ x1 <> x2 /\ y1 = y2 /\ z1 <> z2
      /\ y1 <> ys volume /\ y2 = yf volume
      /\ ys volume <= fst range_ /\ snd range_ <= ny grid)
  \/ (name = "zminus"%string /\ x1 <> x2 /\ y1 <> y2 /\ z1 = z2
      /\ z1 = zs volume /\ 0 <= fst range_ /\ snd range_ <= zf volume)
  \/ (name = "zplus"%string /\ x1 <> x2 /\ y1 <> y2 /\ z1 = z2
      /\ z1 <> zs volume /\ z2 = zf volume
      /\ zs volume <= fst range_ /\ snd range_ <= nz grid).

(** The same command with no rotation pending. *)
Definition without_rotation (self : AddSurfaceRoughness)
  : AddSurfaceRoughness :=
  {| kwargs := kwargs self;
     axis := axis self;
     angle := angle self;
     origin := origin self;
     dorotate := false |}.

(** The grid a call leaves, when it returns. *)
Definition grid_after (r : outcome (AddSurfaceRoughness * FDTDGrid))
  : outcome FDTDGrid :=
  match r with
  | Done (_, grid) => Done grid
  | Raised e => Raised e
  end.

(** A volume after [volume.fractalsurfaces.append(surface)]. *)
Definition extended (volume : FractalVolume) (surface : FractalSurface)
  : FractalVolume :=
  {| ID := ID volume;
     xs := xs volume; xf := xf volume;
     ys := ys volume; yf := yf volume;
     zs := zs volume; zf := zf volume;
     fractalsurfaces := fractalsurfaces volume ++ [surface] |}.

(** No two surfaces of a volume carry the same surface ID. *)
Definition unique_surfaces (grid : FDTDGrid) : Prop :=
  Forall (fun volume => NoDup (map surfaceID (fractalsurfaces volume)))
         (fractalvolumes grid).

End Create.

End Roughness.

(** A fractal box of 40 x 40 x 30 cells in a 100-cell cube, and a request
    for roughness on its top face; lengths are whole numbers of cells. *)
Module RoughnessExample.

Import Roughness.

Definition is_negative (x : Z) : bool := x <? 0.
Definition round_div (a b : Z) : Z := a / b.
Definition check_box_points (p1 p2 : point Z) : outcome (cell * cell) :=
  Done (p1, p2).
Definition rotate_2point_object (pts : point Z * point Z)
    (_ _ _ : option unit) : point Z * point Z :=
  (snd pts, fst pts).
Definition generate_fractal_surface (_ : FDTDGrid Z unit)
    (_ : FractalSurface Z unit) : unit := tt.

Definition create :=
  Roughness.create Z is_negative round_div unit unit unit unit
    check_box_points rotate_2point_object generate_fractal_surface.

Definition box : FractalVolume Z unit :=
  {| ID := "box"%string;
     xs := 10; xf := 50; ys := 10; yf := 50; zs := 0; zf := 30;
     fractalsurfaces := [] |}.

Definition grid : FDTDGrid Z unit :=
  {| dx := 1; dy := 1; dz := 1; nx := 100; ny := 100; nz := 100;
     fractalvolumes := [box] |}.

Definition top : AddSurfaceRoughness Z unit unit unit :=
  {| kwargs :=
       {| kw_p1 := Some (10, 10, 30);
          kw_p2 := Some (50, 50, 30);
          kw_frac_dim := Some 2;
          kw_weighting := Some [1; 1];
          kw_limits := Some [25; 35];
          kw_fractal_box_id := Some "box"%string;
          kw_seed := None |};
     axis := None; angle := None; origin := None;
     dorotate := false |}.

(** Variants of the request: [kw] with other keyword arguments. *)
Definition request (kw : kwargs_dict Z)
  : AddSurfaceRoughness Z unit unit unit :=
  {| kwargs := kw; axis := None; angle := None; origin := None;
     dorotate := false |}.

Definition without_weighting : AddSurfaceRoughness Z unit unit unit :=
  request {| kw_p1 := Some (10, 10, 30); kw_p2 := Some (50, 50, 30);
             kw_frac_dim := Some 2; kw_weighting := None;
             kw_limits := Some [25; 35];
             kw_fractal_box_id := Some "box"%string; kw_seed := None |}.

Definition on_roof : AddSurfaceRoughness Z unit unit unit :=
  request {| kw_p1 := Some (10, 10, 30); kw_p2 := Some (50, 50, 30);
             kw_frac_dim := Some 2; kw_weighting := Some [1; 1];
             kw_limits := Some [25; 35];
             kw_fractal_box_id := Some "roof"%string; kw_seed := None |}.

Definition single_weighting : AddSurfaceRoughness Z unit unit unit :=
  request {| kw_p1 := Some (10, 10, 30); kw_p2 := Some (50, 50, 30);
             kw_frac_dim := Some 2; kw_weighting := Some [1];
             kw_limits := Some [25; 35];
             kw_fractal_box_id := Some "box"%string; kw_seed := None |}.

Definition top_surface : FractalSurface Z unit :=
  {| s_xs := 10; s_xf := 50; s_ys := 10; s_yf := 50; s_zs := 30; s_zf := 30;
     dimension := 2;
     surfaceID := "zplus"%string;
     fractalrange := (25, 35);
     operatingonID := "box"%string;
     seed := None;
     weighting := [1; 1];
     fractalsurface := Some tt |}.

Definition grid_with_top : FDTDGrid Z unit :=
  {| dx := 1; dy := 1; dz := 1; nx := 100; ny := 100; nz := 100;
     fractalvolumes := [extended Z unit box top_surface] |}.

End RoughnessExample.

(** ** Reading a call log *)

Module SolverLog.

(** The calls of the solver loop that couple the sub-grids. *)
Definition is_hsg (m : method) : bool :=
  match m with
  | hsg_1 | hsg_2 => true
  | _ => false
  end.

(** The iterations handed to [store_snapshots], in call order. *)
Definition snapshots (l : list method) : list Z :=
  flat_map (fun m => match m with
                     | store_snapshots iteration => [iteration]
                     | _ => []
                     end) l.

End SolverLog.

Module Schedule.

Import Updates.

(** The fine-grid field advances. *)
Definition is_electric_advance (c : Call) : bool :=
  match c with
  | Self update_electric_a => true
  | _ => false
  end.

Definition is_magnetic_advance (c : Call) : bool :=
  match c with
  | Self update_magnetic => true
  | _ => false
  end.

(** The IS injections. *)
Definition is_electric_is (c : Call) : bool :=
  match c with
  | SubGrid update_electric_is => true
  | _ => false
  end.

Definition is_magnetic_is (c : Call) : bool :=
  match c with
  | SubGrid update_magnetic_is => true
  | _ => false
  end.

(** A precursor call that sets the magnetic (electric) boundary sample:
    an interpolation or the exact value. *)
Definition is_magnetic_sample (c : Call) : bool :=
  match c with
  | Precursors (Prec.interpolate_magnetic_in_time _) => true
  | Precursors Prec.calc_exact_magnetic_in_time => true
  | _ => false
  end.

Definition is_electric_sample (c : Call) : bool :=
  match c with
  | Precursors (Prec.interpolate_electric_in_time _) => true
  | Precursors Prec.calc_exact_electric_in_time => true
  | _ => false
  end.

(** Precursor snapshots of the main grid and OS injections into it. *)
Definition touches_main_grid (c : Call) : bool :=
  match c with
  | Precursors Prec.update_electric => true
  | Precursors Prec.update_magnetic => true
  | SubGrid update_electric_os => true
  | SubGrid update_magnetic_os => true
  | _ => false
  end.

Definition is_os_injection (c : Call) : bool :=
  match c with
  | SubGrid update_electric_os => true
  | SubGrid update_magnetic_os => true
  | _ => false
  end.

Definition count (p : Call -> bool) (l : list Call) : nat :=
  length (List.filter p l).

(** The step indices handed to the interpolation, in call order. *)
Definition magnetic_steps (l : list Call) : list Z :=
  flat_map (fun c => match c with
                     | Precursors (Prec.interpolate_magnetic_in_time m) => [m]
                     | _ => []
                     end) l.

Definition electric_steps (l : list Call) : list Z :=
  flat_map (fun c => match c with
                     | Precursors (Prec.interpolate_electric_in_time m) => [m]
                     | _ => []
                     end) l.

(** Every call selected by [inj] comes directly after a call accepted by
    [ok]; [prev] is the call before the list, if any. *)
Fixpoint guarded (ok inj : Call -> bool) (prev : option Call)
    (l : list Call) : bool :=
  match l with
  | [] => true
  | c :: rest =>
      (if inj c
       then match prev with Some p => ok p | None => false end
       else true)
      && guarded ok inj (Some c) rest
  end.

End Schedule.

(** ** gprMax/subgrids/updates.py: SubgridUpdates and CUDASubgridUpdater *)

Module Aggregate.

Import Updates.

(** A call made on behalf of one of the updaters of [self.updaters]. *)
Definition on {A} (sg_updater : SubgridUpdater) (c : M Call A)
  : M (SubgridUpdater * Call) A :=
  (map (pair sg_updater) (trace c), outcome c).

(** [SubgridUpdates.hsg_1()] *)
Definition hsg_1 (updaters : list SubgridUpdater)
  : M (SubgridUpdater * Call) unit :=
  for_each updaters
    (fun sg_updater =>
       on sg_updater (Updates.hsg_1 (ratio (grid sg_updater)))).

(** [SubgridUpdates.hsg_2()] *)
Definition hsg_2 (updaters : list SubgridUpdater)
  : M (SubgridUpdater * Call) unit :=
  for_each updaters
    (fun sg_updater =>
       on sg_updater (Updates.hsg_2 (ratio (grid sg_updater)))).

End Aggregate.

Module CUDAUpdater.

Import Updates.

(** The methods a CUDASubgridUpdater calls on itself: those of the
    Updates interface and two of its own. *)
Inductive cuda_method : Type :=
| base (m : method)
| store_outputs_gpu
| update_magnetic_gpu.

Inductive Call : Type :=
| Self (m : cuda_method)
| Precursors (m : Prec.method)
| SubGrid (m : grid_method).

(** Body of the loop of [hsg1_gpu] (lines 192-209). *)
Definition hsg1_gpu_substep (ratio m : Z) : M Call unit :=
  call (Self store_outputs_gpu) ;;;
  call (Self (base update_electric_a)) ;;;
  call (Self (base update_electric_pml)) ;;;
  call (Precursors (Prec.interpolate_magnetic_in_time (shifted m ratio))) ;;;
  call (SubGrid update_electric_is) ;;;
  call (Self (base update_electric_sources)) ;;;
  call (Self (base update_electric_b)) ;;;
  call (Self update_magnetic_gpu) ;;;
  call (Self (base update_magnetic_pml)) ;;;
  call (Precursors (Prec.interpolate_electric_in_time m)) ;;;
  call (SubGrid update_magnetic_is) ;;;
  call (Self (base update_magnetic_sources)).

(** [CUDASubgridUpdater.hsg1_gpu()] *)
Definition hsg1_gpu (ratio : Z) : M Call unit :=
  call (Precursors Prec.update_electric) ;;;
  let upper_m := upper_m ratio in
  for_each (range 1 (upper_m + 1)) (hsg1_gpu_substep ratio) ;;;
  call (Self store_outputs_gpu) ;;;
  call (Self (base update_electric_a)) ;;;
  call (Self (base update_electric_pml)) ;;;
  call (Precursors Prec.calc_exact_magnetic_in_time) ;;;
  call (SubGrid update_electric_is) ;;;
  call (Self (base update_electric_sources)) ;;;
  call (Self (base update_electric_b)) ;;;
  call (SubGrid update_electric_os).

(** Body of the loop of [hsg2_gpu] (lines 232-245). *)
Definition hsg2_gpu_substep (ratio m : Z) : M Call unit :=
  call (Self update_magnetic_gpu) ;;;
  call (Self (base update_magnetic_pml)) ;;;
  call (Precursors (Prec.interpolate_electric_in_time (shifted m ratio))) ;;;
  call (SubGrid update_magnetic_is) ;;;
  call (Self (base update_magnetic_sources)) ;;;
  call (Self store_outputs_gpu) ;;;
  call (Self (base update_electric_a)) ;;;
  call (Self (base update_electric_pml)) ;;;
  call (Precursors (Prec.interpolate_magnetic_in_time m)) ;;;
  call (SubGrid update_electric_is) ;;;
  call (Self (base update_electric_sources)) ;;;
  call (Self (base update_electric_b)).

(** [CUDASubgridUpdater.hsg2_gpu()] *)
Definition hsg2_gpu (ratio : Z) : M Call unit :=
  call (Precursors Prec.update_magnetic) ;;;
  let upper_m := upper_m ratio in
  for_each (range 1 (upper_m + 1)) (hsg2_gpu_substep ratio) ;;;
  call (Self update_magnetic_gpu) ;;;
  call (Self (base update_magnetic_pml)) ;;;
  call (Precursors Prec.calc_exact_electric_in_time) ;;;
  call (SubGrid update_magnetic_is) ;;;
  call (Self (base update_magnetic_sources)) ;;;
  call (SubGrid update_magnetic_os).

(** The CPU call a CUDA call stands for: the two [_gpu] methods are the
    device versions of [store_outputs] and [update_magnetic]. *)
Definition as_cpu (c : Call) : Updates.Call :=
  match c with
  | Self (base m) => Updates.Self m
  | Self store_outputs_gpu => Updates.Self store_outputs
  | Self update_magnetic_gpu => Updates.Self update_magnetic
  | Precursors p => Updates.Precursors p
  | SubGrid g => Updates.SubGrid g
  end.

End CUDAUpdater.

(** ** What each injection reads and writes *)

Module Footprint.

Import HSG.

(** The arrays handed to the kernels as destination [field]. *)
Definition electric_is_writes (self : SubGrid) : list ref :=
  [Ex self; Ey self; Ez self].

Definition magnetic_is_writes (self : SubGrid) : list ref :=
  [Hx self; Hy self; Hz self].

Definition electric_os_writes (main_grid : FDTDGrid) : list ref :=
  [Ex main_grid; Ey main_grid; Ez main_grid].

Definition magnetic_os_writes (main_grid : FDTDGrid) : list ref :=
  [Hx main_grid; Hy main_grid; Hz main_grid].

(** All the arrays handed to the kernels by each method. *)
Definition electric_is_reads (self : SubGrid)
    (precursors : precursor_nodes) : list ref :=
  [Ex self; Ey self; Ez self; updatecoeffsE self; ID self]
  ++ map (host precursors)
       [hy_bottom; hy_top; hx_bottom; hx_top;
        hz_left; hz_right; hy_left; hy_right;
        hz_front; hz_back; hx_front; hx_back].

Definition magnetic_is_reads (self : SubGrid)
    (precursors : precursor_nodes) : list ref :=
  [Hx self; Hy self; Hz self; updatecoeffsH self; ID self]
  ++ map (host precursors)
       [ex_bottom; ex_top; ey_bottom; ey_top;
        ey_left; ey_right; ez_left; ez_right;
        ex_front; ex_back; ez_front; ez_back].

Definition electric_os_reads (self : SubGrid) (main_grid : FDTDGrid)
  : list ref :=
  [Ex main_grid; Ey main_grid; Ez main_grid;
   updatecoeffsE main_grid; ID main_grid;
   Hx self; Hy self; Hz self].

Definition magnetic_os_reads (self : SubGrid) (main_grid : FDTDGrid)
  : list ref :=
  [Hx main_grid; Hy main_grid; Hz main_grid;
   updatecoeffsH main_grid; ID main_grid;
   Ex self; Ey self; Ez self].

(** Two stores hold the same contents in the arrays of [refs]. *)
Definition agree {Arr} (refs : list ref) (st1 st2 : store Arr) : Prop :=
  forall r, In r refs -> st1 r = st2 r.

End Footprint.

(** The store of [Example] with other contents in the sub-grid's Hx (for
    the IS injection) and in the sub-grid's Ex (for the OS injection):
    arrays the electric injections are not handed. *)
Module FootprintExample.

Import HSG Example.

Definition other_Hx : store (list Z) := upd (list Z) st0 (Hx sub_grid) [99].

Definition other_Ex : store (list Z) := upd (list Z) st0 (Ex sub_grid) [99].

End FootprintExample.

(** ** class CUDASubGridHSG: the OS injections *)

Module CUDAOS.

Import HSG.

Section Device.

Variable Arr : Type.

(** [a.shape[1]], [a.shape[2]], [a.shape[3]] are those of [K]. *)
Variable K : kernels Arr.

(** Modelled from the spec: the CUDA template [kernel_template_os] of
    gprMax/cuda/hsg_field_updates is missing from the sources.  Each of
    its two kernels is taken as a function of the values substituted into
    the template, of its scalar arguments (in call order, followed by the
    block and grid sizes) and of the four device arrays it is handed
    (coefficients, ID, destination field, incident field), giving the new
    contents of the destination field (section 4.2: the OS injection
    overwrites the main-grid field value at the shell). *)
Record os_kernels : Type := {
  k_hsg_update_electric_os :
    list Z -> list Z -> Arr -> Arr -> Arr -> Arr -> Arr;
  k_hsg_update_magnetic_os :
    list Z -> list Z -> Arr -> Arr -> Arr -> Arr -> Arr
}.

Variable KO : os_kernels.

(** The main grid with the device-side attributes the OS injections set
    and use. *)
Record CUDAGrid : Type := {
  as_main :> FDTDGrid;
  m_Ex_gpu : ref; m_Ey_gpu : ref; m_Ez_gpu : ref;
  m_Hx_gpu : ref; m_Hy_gpu : ref; m_Hz_gpu : ref;
  m_updatecoeffsE_gpu : ref;
  m_updatecoeffsH_gpu : ref;
  m_ID_gpu : ref;
  m_tpb : Z * Z * Z;
  m_bpg : Z * Z * Z
}.

(** [dst = gpuarray.to_gpu(src)] and [dst = src.get()]: the array behind
    [dst] takes the contents of [src]. *)
Definition copy (dst src : ref) (st : store Arr) : store Arr :=
  upd Arr st dst (st src).

(** One launch of a compiled OS kernel. *)
Definition launch
    (kernel : list Z -> list Z -> Arr -> Arr -> Arr -> Arr -> Arr)
    (template : list Z)
    (face co sign_n sign_f mid ratio_ is_os_sep_ n_boundary_cells_ nwn : Z)
    (lookup_id l_l l_u m_l m_u n_l n_u : Z)
    (updatecoeffs ID field inc_field : ref)
    (block grid : Z * Z * Z) (st : store Arr) : store Arr :=
  upd Arr st field
    (kernel template
       [face; co; sign_n; sign_f; mid; ratio_; is_os_sep_;
        n_boundary_cells_; nwn; lookup_id; l_l; l_u; m_l; m_u; n_l; n_u;
        fst (fst block); snd (fst block); snd block;
        fst (fst grid); snd (fst grid); snd grid]
       (st updatecoeffs) (st ID) (st field) (st inc_field)).

(** The values substituted into [kernel_template_os]. *)
Definition os_template (self : CUDASubGrid) (main_grid : CUDAGrid)
    (st : store Arr) : list Z :=
  [shape1 Arr K (st (updatecoeffsH main_grid));
   nx main_grid + 1; ny main_grid + 1; nz main_grid + 1;
   nx self + 1; ny self + 1; nz self + 1;
   shape1 Arr K (st (ID main_grid)); shape2 Arr K (st (ID main_grid));
   shape3 Arr K (st (ID main_grid))].

(** [CUDASubGridHSG.update_electric_os(main_grid)] *)
Definition update_electric_os (self : CUDASubGrid) (main_grid : CUDAGrid)
    (st : store Arr) : store Arr :=
  let i_l := i0 self - is_os_sep self in
  let i_u := i1 self + is_os_sep self in
  let j_l := j0 self - is_os_sep self in
  let j_u := j1 self + is_os_sep self in
  let k_l := k0 self - is_os_sep self in
  let k_u := k1 self + is_os_sep self in
  (* Allocating GPU Arrays *)
  let st := copy (m_ID_gpu main_grid) (ID main_grid) st in
  let st := copy (m_updatecoeffsE_gpu main_grid) (updatecoeffsE main_grid)
              st in
  let st := copy (m_Ex_gpu main_grid) (Ex main_grid) st in
  let st := copy (m_Ey_gpu main_grid) (Ey main_grid) st in
  let st := copy (m_Ez_gpu main_grid) (Ez main_grid) st in
  let st := copy (Hx_gpu self) (Hx self) st in
  let st := copy (Hy_gpu self) (Hy self) st in
  let st := copy (Hz_gpu self) (Hz self) st in
  let hsg_update_electric_os_gpu :=
    launch (k_hsg_update_electric_os KO) (os_template self main_grid st) in
  (* Front and Back *)
  let st := hsg_update_electric_os_gpu
    (int32 3) (int32 2) (int32 1) (int32 (-1)) (int32 1)
    (int32 (ratio self)) (int32 (is_os_sep self))
    (int32 (n_boundary_cells self)) (int32 (nwy self))
    (int32 (IDlookup main_grid kEx)) (int32 i_l) (int32 i_u) (int32 k_l)
    (int32 (k_u + 1)) (int32 j_l) (int32 j_u)
    (m_updatecoeffsE_gpu main_grid) (m_ID_gpu main_grid)
    (m_Ex_gpu main_grid) (Hz_gpu self)
    (m_tpb main_grid) (m_bpg main_grid) st in
  let st := hsg_update_electric_os_gpu
    (int32 3) (int32 2) (int32 (-1)) (int32 1) (int32 0)
    (int32 (ratio self)) (int32 (is_os_sep self))
    (int32 (n_boundary_cells self)) (int32 (nwy self))
    (int32 (IDlookup main_grid kEz)) (int32 i_l) (int32 (i_u + 1))
    (int32 k_l) (int32 k_u) (int32 j_l) (int32 j_u)
    (m_updatecoeffsE_gpu main_grid) (m_ID_gpu main_grid)
    (m_Ez_gpu main_grid) (Hx_gpu self)
    (m_tpb main_grid) (m_bpg main_grid) st in
  (* Left and Right *)
  let st := hsg_update_electric_os_gpu
    (int32 2) (int32 1) (int32 (-1)) (int32 1) (int32 1)
    (int32 (ratio self)) (int32 (is_os_sep self))
    (int32 (n_boundary_cells self)) (int32 (nwx self))
    (int32 (IDlookup main_grid kEy)) (int32 j_l) (int32 j_u) (int32 k_l)
    (int32 (k_u + 1)) (int32 i_l) (int32 i_u)
    (m_updatecoeffsE_gpu main_grid) (m_ID_gpu main_grid)
    (m_Ey_gpu main_grid) (Hz_gpu self)
    (m_tpb main_grid) (m_bpg main_grid) st in
  let st := hsg_update_electric_os_gpu
    (int32 2) (int32 1) (int32 1) (int32 (-1)) (int32 0)
    (int32 (ratio self)) (int32 (is_os_sep self))
    (int32 (n_boundary_cells self)) (int32 (nwx self))
    (int32 (IDlookup main_grid kEz)) (int32 j_l) (int32 (j_u + 1))
    (int32 k_l) (int32 k_u) (int32 i_l) (int32 i_u)
    (m_updatecoeffsE_gpu main_grid) (m_ID_gpu main_grid)
    (m_Ez_gpu main_grid) (Hy_gpu self)
    (m_tpb main_grid) (m_bpg main_grid) st in
  (* Top and Bottom *)
  let st := hsg_update_electric_os_gpu
    (int32 1) (int32 3) (int32 (-1)) (int32 1) (int32 1)
    (int32 (ratio self)) (int32 (is_os_sep self))
    (int32 (n_boundary_cells self)) (int32 (nwz self))
    (int32 (IDlookup main_grid kEx)) (int32 i_l) (int32 i_u) (int32 j_l)
    (int32 (j_u + 1)) (int32 k_l) (int32 k_u)
    (m_updatecoeffsE_gpu main_grid) (m_ID_gpu main_grid)
    (m_Ex_gpu main_grid) (Hy_gpu self)
    (m_tpb main_grid) (m_bpg main_grid) st in
  let st := hsg_update_electric_os_gpu
    (int32 1) (int32 3) (int32 1) (int32 (-1)) (int32 0)
    (int32 (ratio self)) (int32 (is_os_sep self))
    (int32 (n_boundary_cells self)) (int32 (nwz self))
    (int32 (IDlookup main_grid kEy)) (int32 i_l) (int32 (i_u + 1))
    (int32 j_l) (int32 j_u) (int32 k_l) (int32 k_u)
    (m_updatecoeffsE_gpu main_grid) (m_ID_gpu main_grid)
    (m_Ey_gpu main_grid) (Hx_gpu self)
    (m_tpb main_grid) (m_bpg main_grid) st in
  let st := copy (Ex main_grid) (m_Ex_gpu main_grid) st in
  let st := copy (Ey main_grid) (m_Ey_gpu main_grid) st in
  let st := copy (Ez main_grid) (m_Ez_gpu main_grid) st in
  st.

(** [CUDASubGridHSG.update_magnetic_os(main_grid)].  The local [bpg] it
    computes is not used: the launches take [main_grid.bpg]. *)
Definition update_magnetic_os (self : CUDASubGrid) (main_grid : CUDAGrid)
    (st : store Arr) : store Arr :=
  let i_l := i0 self - is_os_sep self in
  let i_u := i1 self + is_os_sep self in
  let j_l := j0 self - is_os_sep self in
  let j_u := j1 self + is_os_sep self in
  let k_l := k0 self - is_os_sep self in
  let k_u := k1 self + is_os_sep self in
  (* Allocating GPU Arrays *)
  let st := copy (m_ID_gpu main_grid) (ID main_grid) st in
  let st := copy (m_updatecoeffsH_gpu main_grid) (updatecoeffsH main_grid)
              st in
  let st := copy (m_Hx_gpu main_grid) (Hx main_grid) st in
  let st := copy (m_Hy_gpu main_grid) (Hy main_grid) st in
  let st := copy (m_Hz_gpu main_grid) (Hz main_grid) st in
  let hsg_update_magnetic_os_gpu :=
    launch (k_hsg_update_magnetic_os KO) (os_template self main_grid st) in
  (* Front and Back Faces *)
  let st := hsg_update_magnetic_os_gpu
    (int32 3) (int32 2) (int32 1) (int32 (-1)) (int32 1)
    (int32 (ratio self)) (int32 (is_os_sep self))
    (int32 (n_boundary_cells self)) (int32 (nwy self))
    (int32 (IDlookup main_grid kHz)) (int32 i_l) (int32 i_u) (int32 k_l)
    (int32 (k_u + 1)) (int32 (j_l - 1)) (int32 j_u)
    (m_updatecoeffsH_gpu main_grid) (m_ID_gpu main_grid)
    (m_Hz_gpu main_grid) (Ex_gpu self)
    (m_tpb main_grid) (m_bpg main_grid) st in
  let st := hsg_update_magnetic_os_gpu
    (int32 3) (int32 2) (int32 (-1)) (int32 1) (int32 0)
    (int32 (ratio self)) (int32 (is_os_sep self))
    (int32 (n_boundary_cells self)) (int32 (nwy self))
    (int32 (IDlookup main_grid kHx)) (int32 i_l) (int32 (i_u + 1))
    (int32 k_l) (int32 k_u) (int32 (j_l - 1)) (int32 j_u)
    (m_updatecoeffsH_gpu main_grid) (m_ID_gpu main_grid)
    (m_Hx_gpu main_grid) (Ez_gpu self)
    (m_tpb main_grid) (m_bpg main_grid) st in
  (* Left and Right Faces *)
  let st := hsg_update_magnetic_os_gpu
    (int32 2) (int32 1) (int32 (-1)) (int32 1) (int32 1)
    (int32 (ratio self)) (int32 (is_os_sep self))
    (int32 (n_boundary_cells self)) (int32 (nwx self))
    (int32 (IDlookup main_grid kHz)) (int32 j_l) (int32 j_u) (int32 k_l)
    (int32 (k_u + 1)) (int32 (i_l - 1)) (int32 i_u)
    (m_updatecoeffsH_gpu main_grid) (m_ID_gpu main_grid)
    (m_Hz_gpu main_grid) (Ey_gpu self)
    (m_tpb main_grid) (m_bpg main_grid) st in
  let st := hsg_update_magnetic_os_gpu
    (int32 2) (int32 1) (int32 1) (int32 (-1)) (int32 0)
    (int32 (ratio self)) (int32 (is_os_sep self))
    (int32 (n_boundary_cells self)) (int32 (nwx self))
    (int32 (IDlookup main_grid kHy)) (int32 j_l) (int32 (j_u + 1))
    (int32 k_l) (int32 k_u) (int32 (i_l - 1)) (int32 i_u)
    (m_updatecoeffsH_gpu main_grid) (m_ID_gpu main_grid)
    (m_Hy_gpu main_grid) (Ez_gpu self)
    (m_tpb main_grid) (m_bpg main_grid) st in
  (* Top and Bottom *)
  let st := hsg_update_magnetic_os_gpu
    (int32 1) (int32 3) (int32 (-1)) (int32 1) (int32 1)
    (int32 (ratio self)) (int32 (is_os_sep self))
    (int32 (n_boundary_cells self)) (int32 (nwz self))
    (int32 (IDlookup main_grid kHy)) (int32 i_l) (int32 i_u) (int32 j_l)
    (int32 (j_u + 1)) (int32 (k_l - 1)) (int32 k_u)
    (m_updatecoeffsH_gpu main_grid) (m_ID_gpu main_grid)
    (m_Hy_gpu main_grid) (Ex_gpu self)
    (m_tpb main_grid) (m_bpg main_grid) st in
  let st := hsg_update_magnetic_os_gpu
    (int32 1) (int32 3) (int32 1) (int32 (-1)) (int32 0)
    (int32 (ratio self)) (int32 (is_os_sep self))
    (int32 (n_boundary_cells self)) (int32 (nwz self))
    (int32 (IDlookup main_grid kHx)) (int32 i_l) (int32 (i_u + 1))
    (int32 j_l) (int32 j_u) (int32 (k_l - 1)) (int32 k_u)
    (m_updatecoeffsH_gpu main_grid) (m_ID_gpu main_grid)
    (m_Hx_gpu main_grid) (Ey_gpu self)
    (m_tpb main_grid) (m_bpg main_grid) st in
  (* Copying the data back to host *)
  let st := copy (Hx main_grid) (m_Hx_gpu main_grid) st in
  let st := copy (Hy main_grid) (m_Hy_gpu main_grid) st in
  let st := copy (Hz main_grid) (m_Hz_gpu main_grid) st in
  st.

(** [config.get_model_config().ompthreads] of the host path. *)
Variable ompthreads : Z.

(** The device kernel computes, from the same arguments and arrays, what
    the host kernel computes, whatever the template values and the block
    and grid sizes. *)
Definition same_electric_os : Prop :=
  forall template face co sign_n sign_f mid r s nb nwn lookup_id
         l_l l_u m_l m_u n_l n_u bx by_ bz gx gy gz
         (coeffs id_ field inc : Arr),
    k_hsg_update_electric_os KO template
      [face; co; sign_n; sign_f; mid; r; s; nb; nwn; lookup_id;
       l_l; l_u; m_l; m_u; n_l; n_u; bx; by_; bz; gx; gy; gz]
      coeffs id_ field inc
    = k_update_electric_os Arr K
        [face; l_l; l_u; m_l; m_u; n_l; n_u; nwn; lookup_id; co; sign_n;
         sign_f; mid; r; s; nb; ompthreads]
        coeffs id_ field inc.

Definition same_magnetic_os : Prop :=
  forall template face co sign_n sign_f mid r s nb nwn lookup_id
         l_l l_u m_l m_u n_l n_u bx by_ bz gx gy gz
         (coeffs id_ field inc : Arr),
    k_hsg_update_magnetic_os KO template
      [face; co; sign_n; sign_f; mid; r; s; nb; nwn; lookup_id;
       l_l; l_u; m_l; m_u; n_l; n_u; bx; by_; bz; gx; gy; gz]
      coeffs id_ field inc
    = k_update_magnetic_os Arr K
        [face; l_l; l_u; m_l; m_u; n_l; n_u; nwn; lookup_id; co; sign_n;
         sign_f; mid; r; s; nb; ompthreads]
        coeffs id_ field inc.

(** [x] is unchanged by [np.int32]. *)
Definition fits (x : Z) : Prop := int32 x = x.

(** The integers the OS injections convert with [np.int32]. *)
Definition os_scalars (self : SubGrid) (lookups : list Z) : list Z :=
  let i_l := i0 self - is_os_sep self in
  let i_u := i1 self + is_os_sep self in
  let j_l := j0 self - is_os_sep self in
  let j_u := j1 self + is_os_sep self in
  let k_l := k0 self - is_os_sep self in
  let k_u := k1 self + is_os_sep self in
  [ratio self; is_os_sep self; n_boundary_cells self;
   nwx self; nwy self; nwz self;
   i_l - 1; i_l; i_u; i_u + 1;
   j_l - 1; j_l; j_u; j_u + 1;
   k_l - 1; k_l; k_u; k_u + 1] ++ lookups.

Definition electric_lookups (main_grid : FDTDGrid) : list Z :=
  [IDlookup main_grid kEx; IDlookup main_grid kEy; IDlookup main_grid kEz].

Definition magnetic_lookups (main_grid : FDTDGrid) : list Z :=
  [IDlookup main_grid kHx; IDlookup main_grid kHy; IDlookup main_grid kHz].

(** The host arrays each OS injection works on, each with the device
    array that stands for it. *)
Definition electric_os_arrays (self : CUDASubGrid) (main_grid : CUDAGrid)
  : list (ref * ref) :=
  [(ID main_grid, m_ID_gpu main_grid);
   (updatecoeffsE main_grid, m_updatecoeffsE_gpu main_grid);
   (Ex main_grid, m_Ex_gpu main_grid);
   (Ey main_grid, m_Ey_gpu main_grid);
   (Ez main_grid, m_Ez_gpu main_grid);
   (Hx self, Hx_gpu self);
   (Hy self, Hy_gpu self);
   (Hz self, Hz_gpu self)].

Definition magnetic_os_arrays (self : CUDASubGrid) (main_grid : CUDAGrid)
  : list (ref * ref) :=
  [(ID main_grid, m_ID_gpu main_grid);
   (updatecoeffsH main_grid, m_updatecoeffsH_gpu main_grid);
   (Hx main_grid, m_Hx_gpu main_grid);
   (Hy main_grid, m_Hy_gpu main_grid);
   (Hz main_grid, m_Hz_gpu main_grid);
   (Ex self, Ex_gpu self);
   (Ey self, Ey_gpu self);
   (Ez self, Ez_gpu self)].

(** The arrays of [pairs] are sixteen different arrays. *)
Definition all_distinct (pairs : list (ref * ref)) : Prop :=
  NoDup (map fst pairs ++ map snd pairs).

(** Every device array of [pairs] holds in [device] what its host array
    holds in [host_]. *)
Definition mirrors (pairs : list (ref * ref)) (host_ device : store Arr)
  : Prop :=
  forall h d, In (h, d) pairs -> device d = host_ h.

End Device.

End CUDAOS.

(** The main grid of [Example] with device arrays 31-39, and device
    kernels that record what the recording host kernels record. *)
Module CUDAOSExample.

Import HSG CUDAOS Example.

Definition recording_os : os_kernels (list Z) :=
  {| k_hsg_update_electric_os := fun _ sc _ _ field inc =>
       field ++ [nth 9 sc 0; nth 2 sc 0; nth 3 sc 0] ++ inc;
     k_hsg_update_magnetic_os := fun _ sc _ _ field inc =>
       field ++ [nth 9 sc 0; nth 2 sc 0; nth 3 sc 0] ++ inc |}.

Definition cuda_main_grid : CUDAGrid :=
  {| as_main := main_grid;
     m_Ex_gpu := 31; m_Ey_gpu := 32; m_Ez_gpu := 33;
     m_Hx_gpu := 34; m_Hy_gpu := 35; m_Hz_gpu := 36;
     m_updatecoeffsE_gpu := 37; m_updatecoeffsH_gpu := 38; m_ID_gpu := 39;
     m_tpb := (128, 1, 1)%Z; m_bpg := (539, 1, 1)%Z |}%positive.

End CUDAOSExample.

(** * Properties *)

(** ** The call log *)

Section LogLemmas.

Context {E : Type}.

Lemma trace_bind_ok {A B} (c : M E A) (k : A -> M E B) a :
  outcome c = Ok a ->
  trace (bind c k) = trace c ++ trace (k a)
  /\ outcome (bind c k) = outcome (k a).
Proof.
  destruct c as [l r]; cbn; intros ->; cbn.
  destruct (k a); auto.
Qed.

Lemma trace_bind_raise {A B} (c : M E A) (k : A -> M E B) e :
  outcome c = Raise e ->
  trace (bind c k) = trace c /\ outcome (bind c k) = Raise e.
Proof.
  destruct c as [l r]; cbn; intros ->; auto.
Qed.

(** A loop whose body never raises logs the bodies' calls in order. *)
Lemma for_each_trace {I} (body : I -> M E unit) (xs : list I) :
  (forall x, outcome (body x) = Ok tt) ->
  trace (for_each xs body) = flat_map (fun x => trace (body x)) xs
  /\ outcome (for_each xs body) = Ok tt.
Proof.
  intros Hok; unfold for_each; induction xs as [|x xs [IHt IHo]].
  - split; reflexivity.
  - cbn [for_in flat_map].
    destruct (trace_bind_ok (body x)
                (fun s' => for_in xs s' (fun _ y => body y)) tt (Hok x))
      as [Ht Ho].
    rewrite Ht, Ho, IHt; auto.
Qed.

(** The same for a loop that threads a local through its body, when the
    calls of a pass do not depend on the local. *)
Lemma for_in_trace {I S} (body : S -> I -> M E S) (tr : I -> list E)
    (xs : list I) :
  (forall s x, trace (body s x) = tr x
               /\ exists s', outcome (body s x) = Ok s') ->
  forall s, trace (for_in xs s body) = flat_map tr xs
            /\ exists s', outcome (for_in xs s body) = Ok s'.
Proof.
  intros Hb; induction xs as [|x xs IH]; intros s.
  - split; [reflexivity | exists s; reflexivity].
  - cbn [for_in flat_map].
    destruct (Hb s x) as [Ht [s' Ho]].
    destruct (trace_bind_ok (body s x) (fun s' => for_in xs s' body) s' Ho)
      as [Ht' Ho'].
    rewrite Ht', Ho', Ht.
    destruct (IH s') as [IHt IHo].
    rewrite IHt; auto.
Qed.

End LogLemmas.

(** ** Solver.solve *)

Section SolveProperties.

Variable cuda_flag : bool.
Variable V : Type.
Variable tsolve_value : V.
Variable memsolve_value : Z -> V.

Abbreviation solve := (Solver.solve cuda_flag V tsolve_value memsolve_value).
Abbreviation solve_iteration :=
  (Solver.solve_iteration cuda_flag V memsolve_value).

Lemma solve_iteration_spec self memsolve iteration :
  trace (solve_iteration self memsolve iteration)
    = Solver.iteration_calls cuda_flag (Solver.hsg self) iteration
  /\ exists v, outcome (solve_iteration self memsolve iteration)
               = Ok (Some v).
Proof.
  unfold Solver.solve_iteration, Solver.iteration_calls.
  destruct (Solver.hsg self), cuda_flag; cbn; eauto.
Qed.

Lemma solve_loop_spec self iterator :
  forall memsolve,
    trace (for_in iterator memsolve (solve_iteration self))
      = flat_map (Solver.iteration_calls cuda_flag (Solver.hsg self)) iterator
    /\ exists s', outcome (for_in iterator memsolve (solve_iteration self))
                  = Ok s'.
Proof.
  apply for_in_trace; intros s x.
  destruct (solve_iteration_spec self s x) as [Ht [v Ho]]; eauto.
Qed.

(** After at least one pass the local [memsolve] is bound. *)
Lemma solve_loop_binds self iterator :
  iterator <> [] ->
  forall memsolve,
    exists v, outcome (for_in iterator memsolve (solve_iteration self))
              = Ok (Some v).
Proof.
  induction iterator as [|x xs IH]; [congruence|]; intros _ memsolve.
  cbn [for_in].
  destruct (solve_iteration_spec self memsolve x) as [_ [v Ho]].
  destruct (trace_bind_ok _ (fun s' => for_in xs s' (solve_iteration self))
              _ Ho) as [_ Ho'].
  rewrite Ho'.
  destruct xs as [|y ys].
  - exists v; reflexivity.
  - apply IH; congruence.
Qed.

Lemma solve_trace self iterator :
  trace (solve self iterator)
    = [time_start]
      ++ flat_map (Solver.iteration_calls cuda_flag (Solver.hsg self)) iterator
      ++ [finalise; calculate_tsolve; cleanup].
Proof.
  unfold Solver.solve.
  destruct (solve_loop_spec self iterator None) as [Ht [s' Ho]].
  destruct (for_in iterator None (solve_iteration self)) as [l r].
  cbn in Ht, Ho; subst l r.
  destruct s' as [m|]; cbn; rewrite ?app_nil_r; reflexivity.
Qed.

Lemma solve_outcome self iterator :
  outcome (solve self iterator) =
    match outcome (for_in iterator None (solve_iteration self)) with
    | Ok (Some m) => Ok (tsolve_value, m)
    | Ok None => Raise UnboundLocalError
    | Raise e => Raise e
    end.
Proof.
  unfold Solver.solve.
  destruct (for_in iterator None (solve_iteration self)) as [l [[m|]|e]];
    reflexivity.
Qed.

(** C1: in every iteration of [Solver.solve] with [hsg = True] the
    updates object receives store_outputs, store_snapshots,
    update_magnetic, update_magnetic_pml, update_magnetic_sources, hsg_2,
    update_electric_a, update_electric_pml, update_electric_sources,
    hsg_1, update_electric_b, in this order (followed by
    calculate_memsolve on the CUDA path only); the whole run is
    time_start, these iterations in iterator order, then finalise,
    calculate_tsolve, cleanup. *)
Theorem solve_hsg_call_order (self : Solver.Solver) (iterator : list Z) :
  Solver.hsg self = true ->
  (forall memsolve iteration,
      trace (solve_iteration self memsolve iteration)
      = [store_outputs; store_snapshots iteration; update_magnetic;
         update_magnetic_pml; update_magnetic_sources; hsg_2;
         update_electric_a; update_electric_pml; update_electric_sources;
         hsg_1; update_electric_b]
        ++ (if cuda_flag then [calculate_memsolve iteration] else []))
  /\ trace (solve self iterator)
     = [time_start]
       ++ flat_map
            (fun iteration =>
               [store_outputs; store_snapshots iteration; update_magnetic;
                update_magnetic_pml; update_magnetic_sources; hsg_2;
                update_electric_a; update_electric_pml;
                update_electric_sources; hsg_1; update_electric_b]
               ++ (if cuda_flag then [calculate_memsolve iteration]
                   else []))
            iterator
       ++ [finalise; calculate_tsolve; cleanup].
Proof.
  intros Hhsg; split.
  - intros memsolve iteration.
    destruct (solve_iteration_spec self memsolve iteration) as [-> _].
    rewrite Hhsg; reflexivity.
  - rewrite solve_trace, Hhsg; reflexivity.
Qed.

(** C10: [Solver.solve] returns its (tsolve, memsolve) pair exactly when
    the iterator yields at least one iteration; on an empty iterator the
    local [memsolve] is never assigned and the return statement raises
    UnboundLocalError, after time_start, finalise, calculate_tsolve and
    cleanup have run. *)
Theorem solve_returns_iff_iterated (self : Solver.Solver) :
  solve self [] = ([time_start; finalise; calculate_tsolve; cleanup],
                   Raise UnboundLocalError)
  /\ forall iterator,
       (exists r, outcome (solve self iterator) = Ok r)
       <-> iterator <> [].
Proof.
  split; [reflexivity|].
  intros iterator; split.
  - intros [r Hr] ->; discriminate Hr.
  - intros Hne.
    destruct (solve_loop_binds self iterator Hne None) as [v Hv].
    rewrite solve_outcome, Hv; eauto.
Qed.

End SolveProperties.

Lemma solve_hsg_call_order_witness :
  Solver.hsg {| Solver.updates := Solver.SubgridUpdates [];
                Solver.hsg := true |} = true
  /\ trace (Solver.solve false Z 0 (fun iteration => iteration)
              {| Solver.updates := Solver.SubgridUpdates [];
                 Solver.hsg := true |} [0; 1])
     = [time_start;
        store_outputs; store_snapshots 0; update_magnetic;
        update_magnetic_pml; update_magnetic_sources; hsg_2;
        update_electric_a; update_electric_pml; update_electric_sources;
        hsg_1; update_electric_b;
        store_outputs; store_snapshots 1; update_magnetic;
        update_magnetic_pml; update_magnetic_sources; hsg_2;
        update_electric_a; update_electric_pml; update_electric_sources;
        hsg_1; update_electric_b;
        finalise; calculate_tsolve; cleanup].
Proof.
  split; [reflexivity|].
  exact (proj2 (solve_hsg_call_order false Z 0 (fun iteration => iteration)
                  {| Solver.updates := Solver.SubgridUpdates [];
                     Solver.hsg := true |} [0; 1] eq_refl)).
Defined.

(** ** SubgridUpdater.hsg_1 and hsg_2 *)

Section SubCycle.

Import Updates.

Lemma hsg_1_substep_ok ratio m : outcome (hsg_1_substep ratio m) = Ok tt.
Proof. reflexivity. Qed.

Lemma hsg_2_substep_ok ratio m : outcome (hsg_2_substep ratio m) = Ok tt.
Proof. reflexivity. Qed.

(** The log of [hsg_1]: the precursor snapshot, the loop passes for
    [m] in [range(1, upper_m + 1)], the closing partial step. *)
Lemma hsg_1_trace ratio :
  trace (hsg_1 ratio)
  = [Precursors Prec.update_electric]
    ++ flat_map (fun m => trace (hsg_1_substep ratio m))
                (range 1 (upper_m ratio + 1))
    ++ trace hsg_1_last.
Proof.
  unfold hsg_1.
  destruct (for_each_trace (hsg_1_substep ratio)
              (range 1 (upper_m ratio + 1)) (hsg_1_substep_ok ratio))
    as [Ht Ho].
  destruct (for_each _ _) as [l r]; cbn in Ht, Ho; subst l r.
  reflexivity.
Qed.

Lemma hsg_2_trace ratio :
  trace (hsg_2 ratio)
  = [Precursors Prec.update_magnetic]
    ++ flat_map (fun m => trace (hsg_2_substep ratio m))
                (range 1 (upper_m ratio + 1))
    ++ trace hsg_2_last.
Proof.
  unfold hsg_2.
  destruct (for_each_trace (hsg_2_substep ratio)
              (range 1 (upper_m ratio + 1)) (hsg_2_substep_ok ratio))
    as [Ht Ho].
  destruct (for_each _ _) as [l r]; cbn in Ht, Ho; subst l r.
  reflexivity.
Qed.

Lemma upper_m_quot ratio : upper_m ratio = Z.quot (ratio * 2 - 2) 4.
Proof.
  unfold upper_m, int; cbn.
  f_equal; lia.
Qed.

Lemma upper_m_odd ratio :
  Z.odd ratio = true -> 3 <= ratio -> upper_m ratio = (ratio - 1) / 2.
Proof.
  intros Hodd Hge.
  apply Z.odd_spec in Hodd; destruct Hodd as [k ->].
  rewrite upper_m_quot.
  replace (2 * k + 1 - 1) with (k * 2) by lia.
  replace ((2 * k + 1) * 2 - 2) with (k * 4) by lia.
  rewrite Z.div_mul, Z.quot_mul; lia.
Qed.

Lemma range_from_one n :
  range 1 (n + 1) = map Z.of_nat (seq 1 (Z.to_nat n)).
Proof.
  unfold range.
  replace (n + 1 - 1) with n by lia.
  rewrite <- seq_shift, map_map.
  apply map_ext; intros i; lia.
Qed.



Ltac split_at pre mid :=
  exists pre, mid; eexists; reflexivity.

(** C3: in every pass of the loops of [hsg_1] and [hsg_2], and in the
    closing partial step of each, the field advance (update_electric_a,
    update_magnetic) comes before the IS injection of that field, and the
    IS injection before the source injection of that field; no call is
    repeated within a pass. *)
Theorem substep_advance_is_sources_order (ratio m : Z) :
  let s1 := trace (hsg_1_substep ratio m) in
  let s2 := trace (hsg_2_substep ratio m) in
  let e1 := trace hsg_1_last in
  let e2 := trace hsg_2_last in
  (NoDup s1
   /\ precedes (Self update_electric_a) (SubGrid update_electric_is) s1
   /\ precedes (SubGrid update_electric_is) (Self update_electric_sources) s1
   /\ precedes (Self update_magnetic) (SubGrid update_magnetic_is) s1
   /\ precedes (SubGrid update_magnetic_is) (Self update_magnetic_sources) s1)
  /\ (NoDup s2
      /\ precedes (Self update_magnetic) (SubGrid update_magnetic_is) s2
      /\ precedes (SubGrid update_magnetic_is)
                  (Self update_magnetic_sources) s2
      /\ precedes (Self update_electric_a) (SubGrid update_electric_is) s2
      /\ precedes (SubGrid update_electric_is)
                  (Self update_electric_sources) s2)
  /\ (NoDup e1
      /\ precedes (Self update_electric_a) (SubGrid update_electric_is) e1
      /\ precedes (SubGrid update_electric_is)
                  (Self update_electric_sources) e1)
  /\ (NoDup e2
      /\ precedes (Self update_magnetic) (SubGrid update_magnetic_is) e2
      /\ precedes (SubGrid update_magnetic_is)
                  (Self update_magnetic_sources) e2).
Proof.
  assert (Hnodup : forall l : list Call,
             (fix chk (l : list Call) : Prop :=
                match l with
                | [] => True
                | x :: t => ~ In x t /\ chk t
                end) l -> NoDup l).
  { induction l as [|x t IH]; intros H; constructor; [apply H | apply IH, H]. }
  cbn zeta.
  repeat match goal with |- _ /\ _ => split end;
    try (apply Hnodup; cbn; repeat split; auto; intuition discriminate).
  - split_at [Self store_outputs] [Self update_electric_pml;
      Precursors (Prec.interpolate_magnetic_in_time (shifted m ratio))].
  - split_at [Self store_outputs; Self update_electric_a;
      Self update_electric_pml;
      Precursors (Prec.interpolate_magnetic_in_time (shifted m ratio))]
      (@nil Call).
  - split_at [Self store_outputs; Self update_electric_a;
      Self update_electric_pml;
      Precursors (Prec.interpolate_magnetic_in_time (shifted m ratio));
      SubGrid update_electric_is; Self update_electric_sources;
      Self update_electric_b]
      [Self update_magnetic_pml;
       Precursors (Prec.interpolate_electric_in_time m)].
  - split_at [Self store_outputs; Self update_electric_a;
      Self update_electric_pml;
      Precursors (Prec.interpolate_magnetic_in_time (shifted m ratio));
      SubGrid update_electric_is; Self update_electric_sources;
      Self update_electric_b; Self update_magnetic;
      Self update_magnetic_pml;
      Precursors (Prec.interpolate_electric_in_time m)]
      (@nil Call).
  - split_at (@nil Call) [Self update_magnetic_pml;
      Precursors (Prec.interpolate_electric_in_time (shifted m ratio))].
  - split_at [Self update_magnetic; Self update_magnetic_pml;
      Precursors (Prec.interpolate_electric_in_time (shifted m ratio))]
      (@nil Call).
  - split_at [Self update_magnetic; Self update_magnetic_pml;
      Precursors (Prec.interpolate_electric_in_time (shifted m ratio));
      SubGrid update_magnetic_is; Self update_magnetic_sources;
      Self store_outputs]
      [Self update_electric_pml;
       Precursors (Prec.interpolate_magnetic_in_time m)].
  - split_at [Self update_magnetic; Self update_magnetic_pml;
      Precursors (Prec.interpolate_electric_in_time (shifted m ratio));
      SubGrid update_magnetic_is; Self update_magnetic_sources;
      Self store_outputs; Self update_electric_a;
      Self update_electric_pml;
      Precursors (Prec.interpolate_magnetic_in_time m)]
      (@nil Call).
  - split_at [Self store_outputs] [Self update_electric_pml;
      Precursors Prec.calc_exact_magnetic_in_time].
  - split_at [Self store_outputs; Self update_electric_a;
      Self update_electric_pml;
      Precursors Prec.calc_exact_magnetic_in_time]
      (@nil Call).
  - split_at (@nil Call) [Self update_magnetic_pml;
      Precursors Prec.calc_exact_electric_in_time].
  - split_at [Self update_magnetic; Self update_magnetic_pml;
      Precursors Prec.calc_exact_electric_in_time]
      (@nil Call).
Qed.

(** C5: the last IS electric injection of [hsg_1] comes directly after
    calc_exact_magnetic_in_time, and the last IS magnetic injection of
    [hsg_2] directly after calc_exact_electric_in_time: what follows the
    exact call contains no further IS injection of that field and no
    interpolation, so the closing sub-step uses the exact coarse sample. *)
Theorem last_is_injection_uses_exact_sample (ratio : Z) :
  (exists pre post,
      trace (hsg_1 ratio)
      = pre ++ Precursors Prec.calc_exact_magnetic_in_time
            :: SubGrid update_electric_is :: post
      /\ ~ In (SubGrid update_electric_is) post
      /\ (forall k, ~ In (Precursors (Prec.interpolate_magnetic_in_time k))
                         post)
      /\ (forall k, ~ In (Precursors (Prec.interpolate_electric_in_time k))
                         post))
  /\ (exists pre post,
         trace (hsg_2 ratio)
         = pre ++ Precursors Prec.calc_exact_electric_in_time
               :: SubGrid update_magnetic_is :: post
         /\ ~ In (SubGrid update_magnetic_is) post
         /\ (forall k, ~ In (Precursors (Prec.interpolate_electric_in_time k))
                            post)
         /\ (forall k, ~ In (Precursors (Prec.interpolate_magnetic_in_time k))
                            post)).
Proof.
  split.
  - exists ([Precursors Prec.update_electric]
            ++ flat_map (fun m => trace (hsg_1_substep ratio m))
                        (range 1 (upper_m ratio + 1))
            ++ [Self store_outputs; Self update_electric_a;
                Self update_electric_pml]),
      [Self update_electric_sources; Self update_electric_b;
       SubGrid update_electric_os].
    split.
    + rewrite hsg_1_trace, <- !app_assoc; reflexivity.
    + cbn; repeat split; intros; intuition discriminate.
  - exists ([Precursors Prec.update_magnetic]
            ++ flat_map (fun m => trace (hsg_2_substep ratio m))
                        (range 1 (upper_m ratio + 1))
            ++ [Self update_magnetic; Self update_magnetic_pml]),
      [Self update_magnetic_sources; SubGrid update_magnetic_os].
    split.
    + rewrite hsg_2_trace, <- !app_assoc; reflexivity.
    + cbn; repeat split; intros; intuition discriminate.
Qed.

End SubCycle.

(** ** Setup: create_updates, create_G, create_solver *)

Section Setup.

Import Updates.

Lemma pytype_eqb_hsg t : pytype_eqb t SubGridHSG = true <-> t = SubGridHSG.
Proof. destruct t; cbn; split; congruence. Qed.

(** A list of recognised sub-grids is accepted. *)
Lemma create_updates_accepts subgrids :
  Forall (fun sg => sg_type sg = SubGridHSG) subgrids ->
  exists updaters, create_updates subgrids = Ok updaters
                   /\ map grid updaters = subgrids.
Proof.
  induction 1 as [|sg rest Hsg _ [us [IH Hmap]]].
  - exists []; split; reflexivity.
  - cbn [create_updates]; rewrite Hsg, IH; cbn.
    destruct (filter sg); cbn; eexists; split; try reflexivity;
      cbn; congruence.
Qed.

Lemma create_updates_rejects subgrids :
  (exists sg, In sg subgrids /\ sg_type sg <> SubGridHSG) ->
  create_updates subgrids = Raise ValueError.
Proof.
  induction subgrids as [|sg rest IH]; intros [bad [Hin Hbad]].
  - destruct Hin.
  - cbn [create_updates].
    destruct (pytype_eqb (sg_type sg) SubGridHSG) eqn:Ht; cbn.
    + apply pytype_eqb_hsg in Ht.
      destruct Hin as [-> | Hin]; [contradiction|].
      rewrite IH by eauto.
      destruct (filter sg); reflexivity.
    + reflexivity.
Qed.

(** C6 (as the code has it): when [G.subgrids] holds a sub-grid whose type
    is not SubGridHSG, [create_updates] raises ValueError, and so does
    [create_solver] with sub-gridding selected, before it has called
    anything on an updates object: no Solver exists to time-step. *)
Theorem create_updates_unrecognised_type (subgrids : list subgrid) :
  (exists sg, In sg subgrids /\ sg_type sg <> SubGridHSG) ->
  create_updates subgrids = Raise ValueError
  /\ forall config cls,
       Solver.subgrid config = true ->
       Solver.create_solver config
         {| Solver.cls := cls; Solver.subgrids := subgrids |}
       = ([], Raise ValueError).
Proof.
  intros Hbad; pose proof (create_updates_rejects subgrids Hbad) as Hr.
  split; [exact Hr|].
  intros config cls Hsub.
  unfold Solver.create_solver; cbn [Solver.subgrids].
  rewrite Hsub, Hr; reflexivity.
Qed.

Lemma create_updates_unrecognised_type_witness :
  (exists sg,
      In sg [ {| sg_type := SubGridHSG; filter := true; ratio := 3 |};
              {| sg_type := CUDASubGridHSG; filter := false; ratio := 5 |} ]
      /\ sg_type sg <> SubGridHSG)
  /\ create_updates
       [ {| sg_type := SubGridHSG; filter := true; ratio := 3 |};
         {| sg_type := CUDASubGridHSG; filter := false; ratio := 5 |} ]
     = Raise ValueError.
Proof.
  assert (H : exists sg,
             In sg [ {| sg_type := SubGridHSG; filter := true; ratio := 3 |};
                     {| sg_type := CUDASubGridHSG; filter := false;
                        ratio := 5 |} ]
             /\ sg_type sg <> SubGridHSG).
  { exists {| sg_type := CUDASubGridHSG; filter := false; ratio := 5 |}.
    split; [right; left; reflexivity | discriminate]. }
  split; [exact H|].
  exact (proj1 (create_updates_unrecognised_type _ H)).
Defined.

(** The exception raised for an unrecognised sub-grid type is not
    ConfigurationError. *)
Lemma create_updates_error_class :
  (exists sg,
      In sg [ {| sg_type := OtherType 0; filter := false; ratio := 3 |} ]
      /\ sg_type sg <> SubGridHSG)
  /\ create_updates
       [ {| sg_type := OtherType 0; filter := false; ratio := 3 |} ]
     <> Raise ConfigurationError.
Proof.
  split.
  - eexists; split; [left; reflexivity | discriminate].
  - discriminate.
Qed.




End Setup.

(** ** Boundary exchange (IS and OS injection) *)

Section Exchange.

Import HSG.

Variable Arr : Type.
Variable K : kernels Arr.
Variable ompthreads : Z.

Lemma upd_same (st : store Arr) r a : upd Arr st r a r = a.
Proof. unfold upd; rewrite Pos.eqb_refl; reflexivity. Qed.

Lemma upd_other (st : store Arr) r a r' :
  r' <> r -> upd Arr st r a r' = st r'.
Proof.
  intros Hne; unfold upd.
  destruct (Pos.eqb_spec r' r); [contradiction | reflexivity].
Qed.

(** Each kernel call changes the array [field] and no other. *)
Lemma cython_update_is_frame
    nwx nwy nwz updatecoeffs ID nb offset nwl nwm nwn face
    field inc_l inc_u lookup_id sign_l sign_u co nthreads st r :
  r <> field ->
  cython_update_is Arr K nwx nwy nwz updatecoeffs ID nb offset nwl nwm nwn
    face field inc_l inc_u lookup_id sign_l sign_u co nthreads st r = st r.
Proof. intros; unfold cython_update_is; now apply upd_other. Qed.

Lemma cython_update_electric_os_frame
    updatecoeffs ID face l_l l_u m_l m_u n_l n_u nwn lookup_id field
    inc_field co sign_n sign_f mid r_ s nb nthreads st r :
  r <> field ->
  cython_update_electric_os Arr K updatecoeffs ID face l_l l_u m_l m_u n_l
    n_u nwn lookup_id field inc_field co sign_n sign_f mid r_ s nb nthreads
    st r = st r.
Proof. intros; unfold cython_update_electric_os; now apply upd_other. Qed.

Lemma cython_update_magnetic_os_frame
    updatecoeffs ID face l_l l_u m_l m_u n_l n_u nwn lookup_id field
    inc_field co sign_n sign_f mid r_ s nb nthreads st r :
  r <> field ->
  cython_update_magnetic_os Arr K updatecoeffs ID face l_l l_u m_l m_u n_l
    n_u nwn lookup_id field inc_field co sign_n sign_f mid r_ s nb nthreads
    st r = st r.
Proof. intros; unfold cython_update_magnetic_os; now apply upd_other. Qed.

(** The arrays written by each injection. *)
Lemma update_electric_is_frame (self : SubGrid) precursors st r :
  r <> Ex self -> r <> Ey self -> r <> Ez self ->
  update_electric_is Arr K ompthreads self precursors st r = st r.
Proof.
  intros; unfold update_electric_is; cbv zeta.
  now rewrite !cython_update_is_frame.
Qed.

Lemma update_magnetic_is_frame (self : SubGrid) precursors st r :
  r <> Hx self -> r <> Hy self -> r <> Hz self ->
  update_magnetic_is Arr K ompthreads self precursors st r = st r.
Proof.
  intros; unfold update_magnetic_is; cbv zeta.
  now rewrite !cython_update_is_frame.
Qed.

Lemma update_electric_os_frame (self : SubGrid) (main_grid : FDTDGrid) st r :
  r <> Ex main_grid -> r <> Ey main_grid -> r <> Ez main_grid ->
  update_electric_os Arr K ompthreads self main_grid st r = st r.
Proof.
  intros; unfold update_electric_os; cbv zeta.
  now rewrite !cython_update_electric_os_frame.
Qed.

Lemma update_magnetic_os_frame (self : SubGrid) (main_grid : FDTDGrid) st r :
  r <> Hx main_grid -> r <> Hy main_grid -> r <> Hz main_grid ->
  update_magnetic_os Arr K ompthreads self main_grid st r = st r.
Proof.
  intros; unfold update_magnetic_os; cbv zeta.
  now rewrite !cython_update_magnetic_os_frame.
Qed.

(** C2: the IS injections [update_electric_is] and [update_magnetic_is]
    leave each of the six field arrays of the main grid as it was, and the
    OS injections [update_electric_os] and [update_magnetic_os] leave each
    of the six field arrays of the sub-grid as it was, whatever the
    kernels compute, for grids that own separate field arrays. *)
Theorem is_os_write_isolation
    (self : SubGrid) (precursors : precursor_nodes) (main_grid : FDTDGrid)
    (st : store Arr) :
  separate main_grid self ->
  (forall r, In r (field_arrays main_grid) ->
             update_electric_is Arr K ompthreads self precursors st r = st r
             /\ update_magnetic_is Arr K ompthreads self precursors st r
                = st r)
  /\ (forall r, In r (field_arrays self) ->
                update_electric_os Arr K ompthreads self main_grid st r = st r
                /\ update_magnetic_os Arr K ompthreads self main_grid st r
                   = st r).
Proof.
  intros Hsep; split; intros r Hr.
  - assert (Hne : forall r', In r' (field_arrays self) -> r <> r').
    { intros r' Hr' ->; exact (Hsep _ Hr Hr'). }
    split;
      [apply update_electric_is_frame | apply update_magnetic_is_frame];
      apply Hne; cbn; auto 10.
  - assert (Hne : forall r', In r' (field_arrays main_grid) -> r <> r').
    { intros r' Hr' ->; exact (Hsep _ Hr' Hr). }
    split;
      [apply update_electric_os_frame | apply update_magnetic_os_frame];
      apply Hne; cbn; auto 10.
Qed.

End Exchange.

Section ExampleProperties.

Import HSG Example.

Lemma example_grids_separate : separate main_grid sub_grid.
Proof.
  intros r Hr Hr'; cbn in Hr, Hr'.
  repeat (destruct Hr as [Hr | Hr];
          [ subst r;
            repeat (destruct Hr' as [Hr' | Hr']; [discriminate Hr' |]);
            exact Hr'
          | ]).
  exact Hr.
Defined.

Lemma is_os_write_isolation_witness :
  separate main_grid sub_grid
  /\ update_electric_is (list Z) recording 4 sub_grid precursors st0
       (Ez main_grid) = [23]
  /\ update_magnetic_os (list Z) recording 4 sub_grid main_grid st0
       (Ex sub_grid) = [1].
Proof.
  split; [exact example_grids_separate|].
  pose proof (is_os_write_isolation (list Z) recording 4 sub_grid precursors
                main_grid st0 example_grids_separate) as [His Hos].
  split.
  - exact (proj1 (His (Ez main_grid)
                    (or_intror (or_intror (or_introl eq_refl))))).
  - exact (proj2 (Hos (Ex sub_grid) (or_introl eq_refl))).
Defined.

(** C9 (the code at a concrete sub-grid): as written,
    [CUDASubGridHSG.update_electric_is] raises TypeError at its first
    statement, for every input.  Its six kernel launches, run after the
    precursor upload on a device state that mirrors the host, do not do
    what [SubGridHSG.update_electric_is] does: the front/back injection
    with the Ez lookup (2), signs (1, -1) and the hx_front/hx_back buffers
    (tags 115, 116) lands in Ex instead of Ez; Ey agrees. *)
Theorem cuda_update_electric_is_front_back_destination :
  (forall Arr K self precursors st,
      cuda_update_electric_is Arr K self precursors st = Raise TypeError)
  /\ (let cpu :=
        update_electric_is (list Z) recording 4 sub_grid precursors st0 in
      let cuda :=
        update_electric_is_launches (list Z) recording cuda_sub_grid
          precursors (htod_precursor_fields (list Z) precursors 0 st0) in
      cpu (Ez sub_grid) = [3; 2; -1; 1; 119; 120; 2; 1; -1; 115; 116]
      /\ cuda (Ez sub_grid) = [3; 2; -1; 1; 119; 120]
      /\ cpu (Ex sub_grid) = [1; 0; 1; -1; 117; 118; 0; -1; 1; 121; 122]
      /\ cuda (Ex sub_grid)
         = [1; 0; 1; -1; 117; 118; 0; -1; 1; 121; 122; 2; 1; -1; 115; 116]
      /\ cpu (Ey sub_grid) = cuda (Ey sub_grid)).
Proof.
  split.
  - reflexivity.
  - cbv zeta; repeat split; vm_compute; reflexivity.
Qed.

End ExampleProperties.

(** ** Precursor interpolation *)

Section Interpolation.

Import Precursor.

Lemma nth_error_combine {A B} (l1 : list A) (l2 : list B) i a b :
  nth_error l1 i = Some a ->
  nth_error l2 i = Some b ->
  nth_error (combine l1 l2) i = Some (a, b).
Proof.
  revert l1 l2; induction i as [|i IH]; intros [|x l1] [|y l2];
    cbn; try discriminate.
  - congruence.
  - apply IH.
Qed.

Lemma interpolate_node_linear ratio m a b :
  (interpolate_node ratio m a b
   == a + (b - a) * (inject_Z m / inject_Z ratio))%Q.
Proof. unfold interpolate_node, Qdiv; cbv zeta; ring. Qed.

(** C8: in the unfiltered variant, for a node whose coarse samples are
    [a] (before) and [b] (after) and a sub-step index m in [1, upper_m],
    the interpolated value is a + (b - a) * m / ratio. *)
Theorem interpolate_in_time_linear
    (ratio m : Z) (before after : list Q) (i : nat) (a b : Q) :
  1 <= m <= Updates.upper_m ratio ->
  nth_error before i = Some a ->
  nth_error after i = Some b ->
  exists v,
    nth_error (interpolate_in_time ratio m before after) i = Some v
    /\ (v == a + (b - a) * (inject_Z m / inject_Z ratio))%Q.
Proof.
  intros _ Ha Hb.
  exists (interpolate_node ratio m a b); split.
  - unfold interpolate_in_time.
    erewrite map_nth_error by (apply nth_error_combine; eassumption).
    reflexivity.
  - apply interpolate_node_linear.
Qed.

Lemma interpolate_in_time_linear_witness :
  1 <= 2 <= Updates.upper_m 5
  /\ exists v,
       nth_error (interpolate_in_time 5 2 [1#1; 0#1] [6#1; 10#1])%Q 0
       = Some v
       /\ (v == (1#1) + ((6#1) - (1#1)) * (inject_Z 2 / inject_Z 5))%Q.
Proof.
  assert (H : 1 <= 2 <= Updates.upper_m 5) by (vm_compute; split; discriminate).
  split; [exact H|].
  exact (interpolate_in_time_linear 5 2 [1#1; 0#1]%Q [6#1; 10#1]%Q 0
           (1#1)%Q (6#1)%Q H eq_refl eq_refl).
Defined.

End Interpolation.

(** ** AddSurfaceRoughness.create *)

Section RoughnessProperties.

Import Roughness.

Variable F : Type.
Variable is_negative : F -> bool.
Variable round_div : F -> F -> Z.
Variable Axis Angle Origin Generated : Type.
Variable check_box_points :
  point F -> point F -> outcome (cell * cell).
Variable rotate_2point_object :
  point F * point F -> option Axis -> option Angle -> option Origin
  -> point F * point F.
Variable generate_fractal_surface :
  FDTDGrid F Generated -> FractalSurface F Generated -> Generated.

Abbreviation create :=
  (Roughness.create F is_negative round_div Axis Angle Origin Generated
     check_box_points rotate_2point_object generate_fractal_surface).
Abbreviation orientation :=
  (Roughness.orientation F round_div Generated).
Abbreviation append_surface := (Roughness.append_surface F Generated).
Abbreviation Volume := (FractalVolume F Generated).
Abbreviation Surface := (FractalSurface F Generated).
Abbreviation Grid := (FDTDGrid F Generated).
Abbreviation Command := (AddSurfaceRoughness F Axis Angle Origin).

Abbreviation created :=
  (Roughness.created F is_negative round_div Axis Angle Origin Generated
     check_box_points rotate_2point_object generate_fractal_surface).

Lemma create_done self grid self' grid' :
  create self grid = Done (self', grid') -> created self grid self' grid'.
Proof.
  unfold Roughness.create.
  destruct (kw_p1 F (kwargs _ _ _ _ self)) as [p1|] eqn:H1;
    [|discriminate].
  destruct (kw_p2 F (kwargs _ _ _ _ self)) as [p2|] eqn:H2;
    [|discriminate].
  destruct (kw_frac_dim F (kwargs _ _ _ _ self)) as [fd|] eqn:H3;
    [|discriminate].
  destruct (kw_weighting F (kwargs _ _ _ _ self)) as [w|] eqn:H4;
    [|discriminate].
  destruct (kw_limits F (kwargs _ _ _ _ self)) as [lim|] eqn:H5;
    [|discriminate].
  destruct (kw_fractal_box_id F (kwargs _ _ _ _ self)) as [id|] eqn:H6;
    [|discriminate].
  cbn [getitem and_then].
  destruct (if dorotate _ _ _ _ self then _ else _) as [self1|] eqn:Hs;
    [|discriminate].
  cbn [and_then].
  destruct (filter _ (fractalvolumes _ _ grid)) as [|volume others] eqn:Hf;
    [discriminate|].
  cbn [and_then].
  destruct (check_box_points p1 p2) as [[[[x1 y1] z1] [[x2 y2] z2]]|] eqn:Hc;
    [|discriminate].
  cbn [and_then].
  destruct (is_negative fd) eqn:Hfd; [discriminate|].
  unfold index.
  destruct (nth_error w 0) as [w0|] eqn:Hw0; [|discriminate].
  cbn [and_then].
  destruct (is_negative w0) eqn:Hn0; [discriminate|].
  destruct (nth_error w 1) as [w1|] eqn:Hw1; [|discriminate].
  cbn [and_then].
  destruct (is_negative w1) eqn:Hn1; [discriminate|].
  destruct (Roughness.orientation _ _ _ grid volume lim _ _)
    as [[[name|] [rng|]]|] eqn:Ho; cbn [and_then load]; try discriminate.
  destruct (existsb _ _) eqn:He; [discriminate|].
  intros Hd; injection Hd as <- <-.
  econstructor; eauto.
Qed.

Abbreviation on_face := (Roughness.on_face F Generated).

(** Turn the outcome of the tests of [orientation] into facts about
    the coordinates. *)
Ltac test_fact H :=
  lazymatch type of H with
  | orb _ _ = false =>
      let H1 := fresh H in
      let H2 := fresh H in
      destruct (Bool.orb_false_elim _ _ H) as [H1 H2]; clear H;
      test_fact H1; test_fact H2
  | andb _ _ = false =>
      let H1 := fresh H in
      destruct (Bool.andb_false_elim _ _ H) as [H1 | H1]; clear H;
      test_fact H1
  | negb _ = false => apply Bool.negb_false_iff in H; test_fact H
  | Z.eqb _ _ = true => apply Z.eqb_eq in H
  | Z.eqb _ _ = false => apply Z.eqb_neq in H
  | Z.ltb _ _ = false => apply Z.ltb_ge in H
  | Z.gtb _ _ = false => rewrite Z.gtb_ltb in H; apply Z.ltb_ge in H
  | _ => idtac
  end.

Ltac bool_facts :=
  repeat match goal with
    | H : _ = true |- _ => progress test_fact H
    | H : _ = false |- _ => progress test_fact H
    end.

(** Whenever the orientation checks let a request through, both locals
    are bound and the request is one of the six faces of the volume. *)
Lemma orientation_done grid volume limits p1 p2 rs fr :
  orientation grid volume limits p1 p2 = Done (rs, fr) ->
  exists name range_,
    rs = Some name /\ fr = Some range_
    /\ on_face grid volume p1 p2 name range_.
Proof.
  unfold Roughness.orientation, Roughness.on_face, index.
  destruct p1 as [[x1 y1] z1], p2 as [[x2 y2] z2].
  destruct (nth_error limits 0) as [l0|], (nth_error limits 1) as [l1|];
    cbn [and_then];
    repeat match goal with
      | |- context [if ?b then _ else _] => destruct b eqn:?
      end;
    try discriminate;
    intros Hd; injection Hd as <- <-;
    cbn [fst snd] in *; bool_facts; try lia;
    do 2 eexists; (split; [reflexivity|]); (split; [reflexivity|]);
    cbn [fst snd];
    first [ left; repeat split; (reflexivity || lia)
          | right; left; repeat split; (reflexivity || lia)
          | do 2 right; left; repeat split; (reflexivity || lia)
          | do 3 right; left; repeat split; (reflexivity || lia)
          | do 4 right; left; repeat split; (reflexivity || lia)
          | do 5 right; repeat split; (reflexivity || lia) ].
Qed.

Abbreviation extended := (Roughness.extended F Generated).
Abbreviation unique_surfaces := (Roughness.unique_surfaces F Generated).
Abbreviation built_surface :=
  (Roughness.built_surface F Generated generate_fractal_surface).
Abbreviation matches id :=
  (fun volume : Volume => String.eqb (ID F Generated volume) id).

(** The volume [create] works on is the first of the grid with the
    requested ID, and it is the one that receives the surface. *)
Lemma append_surface_first volumes id volume others surface :
  filter (matches id) volumes = volume :: others ->
  exists pre post,
    volumes = pre ++ volume :: post
    /\ Forall (fun v => ID F Generated v <> id) pre
    /\ ID F Generated volume = id
    /\ others = filter (matches id) post
    /\ append_surface volumes id surface
       = pre ++ extended volume surface :: post.
Proof.
  induction volumes as [|v rest IH]; cbn [filter Roughness.append_surface];
    [discriminate|].
  destruct (String.eqb_spec (ID F Generated v) id) as [Heq | Hne].
  - intros Hf; injection Hf as -> <-.
    exists [], rest; repeat split; auto.
  - intros Hf; destruct (IH Hf) as [pre [post [-> [Hpre [Hid [Ho Ha]]]]]].
    exists (v :: pre), post; repeat split; auto.
    cbn; rewrite Ha; reflexivity.
Qed.

Lemma filter_append_surface volumes id volume others surface :
  filter (matches id) volumes = volume :: others ->
  filter (matches id) (append_surface volumes id surface)
  = extended volume surface :: others.
Proof.
  intros Hf.
  destruct (append_surface_first volumes id volume others surface Hf)
    as [pre [post [-> [Hpre [Hid [-> ->]]]]]].
  rewrite filter_app; cbn [filter Roughness.extended ID].
  rewrite Hid, String.eqb_refl.
  replace (filter (matches id) pre) with (@nil Volume); [reflexivity|].
  clear Hf; induction Hpre as [|v pre Hv _ IH]; [reflexivity|].
  cbn; apply String.eqb_neq in Hv; rewrite Hv; exact IH.
Qed.


(** X2: [create] changes the grid in one place only: the first volume
    with the requested ID gets one surface appended to its list; its ID
    and extent, the volumes before and after it, and the grid's steps and
    size are as they were. *)
Theorem create_appends_to_first_matching_volume
    (self : Command) (grid : Grid) (self' : Command) (grid' : Grid) :
  create self grid = Done (self', grid') ->
  exists id pre volume post surface,
    kw_fractal_box_id F (kwargs _ _ _ _ self) = Some id
    /\ fractalvolumes _ _ grid = pre ++ volume :: post
    /\ Forall (fun v => ID F Generated v <> id) pre
    /\ ID F Generated volume = id
    /\ fractalvolumes _ _ grid' = pre ++ extended volume surface :: post
    /\ (dx _ _ grid', dy _ _ grid', dz _ _ grid')
       = (dx _ _ grid, dy _ _ grid, dz _ _ grid)
    /\ (nx _ _ grid', ny _ _ grid', nz _ _ grid')
       = (nx _ _ grid, ny _ _ grid, nz _ _ grid).
Proof.
  intros Hc; destruct (create_done _ _ _ _ Hc).
  destruct (append_surface_first _ _ _ _
              (built_surface grid volume frac_dim weighting_
                 (kw_seed F (kwargs _ _ _ _ self)) cell1 cell2 name range_)
              found) as [pre [post [Hv [Hpre [Hid [_ Ha]]]]]].
  exists fractal_box_id, pre, volume, post.
  eexists; repeat split; eauto; subst grid'; cbn; eauto.
Qed.

(** X3: [create] keeps the surface IDs of every volume distinct: if no
    volume of the grid has two surfaces with the same ID before the call,
    none has after it. *)
Theorem create_keeps_surface_ids_unique
    (self : Command) (grid : Grid) (self' : Command) (grid' : Grid) :
  unique_surfaces grid ->
  create self grid = Done (self', grid') ->
  unique_surfaces grid'.
Proof.
  unfold Roughness.unique_surfaces; intros Hu Hc.
  destruct (create_done _ _ _ _ Hc).
  destruct (append_surface_first _ _ _ _
              (built_surface grid volume frac_dim weighting_
                 (kw_seed F (kwargs _ _ _ _ self)) cell1 cell2 name range_)
              found) as [pre [post [Hv [_ [_ [_ Ha]]]]]].
  subst grid'; cbn [fractalvolumes]; rewrite Ha.
  rewrite Hv in Hu.
  apply Forall_app in Hu; destruct Hu as [Hpre Hrest].
  inversion Hrest as [|v l Hvol Hpost]; subst.
  apply Forall_app; split; [exact Hpre|].
  constructor; [|exact Hpost].
  cbn [Roughness.extended fractalsurfaces].
  rewrite map_app; cbn [map Roughness.built_surface surfaceID].
  apply NoDup_app; repeat split.
  - exact Hvol.
  - constructor; [intros []|constructor].
  - intros a Hin [<- | []].
    assert (Ht : existsb (String.eqb name)
                   (map (surfaceID F Generated)
                        (fractalsurfaces F Generated volume)) = true).
    { apply existsb_exists; exists name; split;
        [exact Hin | apply String.eqb_refl]. }
    congruence.
Qed.


(** X5: if any of the keys p1, p2, frac_dim, weighting, limits,
    fractal_box_id is absent from the keyword arguments, [create] raises
    KeyError for one of them, whatever the grid holds; seed is not among
    them. *)
Theorem create_missing_key (self : Command) (grid : Grid) :
  kw_p1 F (kwargs _ _ _ _ self) = None
  \/ kw_p2 F (kwargs _ _ _ _ self) = None
  \/ kw_frac_dim F (kwargs _ _ _ _ self) = None
  \/ kw_weighting F (kwargs _ _ _ _ self) = None
  \/ kw_limits F (kwargs _ _ _ _ self) = None
  \/ kw_fractal_box_id F (kwargs _ _ _ _ self) = None ->
  exists key,
    In key ["p1"; "p2"; "frac_dim"; "weighting"; "limits";
            "fractal_box_id"]%string
    /\ create self grid = Raised (KeyError key).
Proof.
  intros Hmiss; unfold Roughness.create.
  destruct (kw_p1 F (kwargs _ _ _ _ self));
    [|eexists; split; [|reflexivity]; cbn; auto 10].
  destruct (kw_p2 F (kwargs _ _ _ _ self));
    [|eexists; split; [|reflexivity]; cbn; auto 10].
  destruct (kw_frac_dim F (kwargs _ _ _ _ self));
    [|eexists; split; [|reflexivity]; cbn; auto 10].
  destruct (kw_weighting F (kwargs _ _ _ _ self));
    [|eexists; split; [|reflexivity]; cbn; auto 10].
  destruct (kw_limits F (kwargs _ _ _ _ self));
    [|eexists; split; [|reflexivity]; cbn; auto 10].
  destruct (kw_fractal_box_id F (kwargs _ _ _ _ self));
    [|eexists; split; [|reflexivity]; cbn; auto 10].
  repeat (destruct Hmiss as [Hmiss | Hmiss]; [discriminate|]).
  discriminate.
Qed.

(** X6: a pending rotation has no effect on what [create] does to the
    grid: the points it checks are those read before the rotation, and
    the rotated points only go back into the keyword arguments. *)
Theorem create_ignores_rotation (self : Command) (grid : Grid) :
  grid_after _ _ _ _ _ (create self grid)
  = grid_after _ _ _ _ _
      (create (without_rotation F Axis Angle Origin self) grid).
Proof.
  unfold Roughness.create, Roughness.without_rotation, Roughness.do_rotate;
    cbn [kwargs dorotate].
  repeat match goal with
    | |- context [getitem ?k ?v] => destruct v; cbn [getitem and_then]
    end; try reflexivity.
  destruct (dorotate _ _ _ _ self); cbn [and_then].
  all: destruct (filter _ _); cbn [and_then]; try reflexivity.
  all: destruct (check_box_points _ _) as [[[[? ?] ?] [[? ?] ?]]|];
    cbn [and_then]; try reflexivity.
  all: unfold index;
    repeat match goal with
      | |- context [is_negative ?x] => destruct (is_negative x)
      | |- context [nth_error ?l ?i] =>
          destruct (nth_error l i); cbn [and_then]
      end; try reflexivity.
  all: destruct (Roughness.orientation _ _ _ _ _ _ _ _)
    as [[[?|] [?|]]|]; cbn [and_then load]; try reflexivity.
  all: destruct (existsb _ _); reflexivity.
Qed.

(** X7: with all keys present, a [fractal_box_id] that no volume of the
    grid carries makes [create] raise ValueError, before the points are
    checked. *)
Theorem create_unknown_box (self : Command) (grid : Grid)
    p1 p2 frac_dim weighting_ limits id :
  kw_p1 F (kwargs _ _ _ _ self) = Some p1 ->
  kw_p2 F (kwargs _ _ _ _ self) = Some p2 ->
  kw_frac_dim F (kwargs _ _ _ _ self) = Some frac_dim ->
  kw_weighting F (kwargs _ _ _ _ self) = Some weighting_ ->
  kw_limits F (kwargs _ _ _ _ self) = Some limits ->
  kw_fractal_box_id F (kwargs _ _ _ _ self) = Some id ->
  Forall (fun v => ID F Generated v <> id) (fractalvolumes _ _ grid) ->
  create self grid = Raised ValueError.
Proof.
  intros H1 H2 H3 H4 H5 H6 Hall; unfold Roughness.create.
  rewrite H1, H2, H3, H4, H5, H6; cbn [getitem and_then].
  assert (Hs : exists self1,
             (if dorotate _ _ _ _ self
              then Roughness.do_rotate F Axis Angle Origin
                     rotate_2point_object self
              else Done self) = Done self1).
  { destruct (dorotate _ _ _ _ self); [|eauto].
    unfold Roughness.do_rotate; rewrite H1, H2; cbn; eauto. }
  destruct Hs as [self1 ->]; cbn [and_then].
  replace (filter _ (fractalvolumes _ _ grid)) with (@nil Volume);
    [reflexivity|].
  induction Hall as [|v l Hv _ IH]; [reflexivity|].
  cbn; apply String.eqb_neq in Hv; rewrite Hv; exact IH.
Qed.

(** X8: a weighting with fewer than two entries makes [create] raise
    IndexError (not ValueError) once the box is found, the points are
    accepted and the fractal dimension and the first weighting, if there
    is one, are not negative. *)
Theorem create_short_weighting (self : Command) (grid : Grid)
    p1 p2 frac_dim weighting_ limits id volume others c1 c2 :
  kw_p1 F (kwargs _ _ _ _ self) = Some p1 ->
  kw_p2 F (kwargs _ _ _ _ self) = Some p2 ->
  kw_frac_dim F (kwargs _ _ _ _ self) = Some frac_dim ->
  kw_weighting F (kwargs _ _ _ _ self) = Some weighting_ ->
  kw_limits F (kwargs _ _ _ _ self) = Some limits ->
  kw_fractal_box_id F (kwargs _ _ _ _ self) = Some id ->
  filter (matches id) (fractalvolumes _ _ grid) = volume :: others ->
  check_box_points p1 p2 = Done (c1, c2) ->
  is_negative frac_dim = false ->
  (length weighting_ < 2)%nat ->
  (forall w0, nth_error weighting_ 0 = Some w0 -> is_negative w0 = false) ->
  create self grid = Raised IndexError.
Proof.
  intros H1 H2 H3 H4 H5 H6 Hf Hc Hd Hlen Hw0; unfold Roughness.create.
  rewrite H1, H2, H3, H4, H5, H6; cbn [getitem and_then].
  assert (Hs : exists self1,
             (if dorotate _ _ _ _ self
              then Roughness.do_rotate F Axis Angle Origin
                     rotate_2point_object self
              else Done self) = Done self1).
  { destruct (dorotate _ _ _ _ self); [|eauto].
    unfold Roughness.do_rotate; rewrite H1, H2; cbn; eauto. }
  destruct Hs as [self1 ->]; cbn [and_then].
  rewrite Hf; cbn [and_then]; rewrite Hc; cbn [and_then].
  destruct c1 as [[? ?] ?], c2 as [[? ?] ?]; rewrite Hd.
  destruct weighting_ as [|w0 [|w1 rest]]; cbn in Hlen; try lia.
  - reflexivity.
  - unfold index; cbn [nth_error and_then].
    rewrite (Hw0 w0 eq_refl); reflexivity.
Qed.

End RoughnessProperties.

Section RoughnessWitnesses.

Import Roughness RoughnessExample.

Abbreviation at_example thm :=
  (thm Z is_negative round_div unit unit unit unit check_box_points
     rotate_2point_object generate_fractal_surface).

Lemma example_create :
  RoughnessExample.create top grid = Done (top, grid_with_top).
Proof. reflexivity. Defined.


Lemma create_appends_to_first_matching_volume_witness :
  RoughnessExample.create top grid = Done (top, grid_with_top)
  /\ exists id pre volume post surface,
       fractalvolumes _ _ grid = pre ++ volume :: post
       /\ ID _ _ volume = id
       /\ fractalvolumes _ _ grid_with_top
          = pre ++ extended _ _ volume surface :: post.
Proof.
  split; [exact example_create|].
  destruct (at_example create_appends_to_first_matching_volume
              top grid top grid_with_top example_create)
    as [id [pre [volume [post [surface H]]]]].
  destruct H as [_ [Hv [_ [Hid [Ha _]]]]].
  exists id, pre, volume, post, surface; auto.
Defined.

Lemma example_unique : unique_surfaces _ _ grid.
Proof. repeat constructor. Defined.

Lemma create_keeps_surface_ids_unique_witness :
  unique_surfaces _ _ grid
  /\ RoughnessExample.create top grid = Done (top, grid_with_top)
  /\ unique_surfaces _ _ grid_with_top.
Proof.
  split; [exact example_unique|]; split; [exact example_create|].
  exact (at_example create_keeps_surface_ids_unique
           top grid top grid_with_top example_unique example_create).
Defined.


(** The same request with the weighting left out. *)
Lemma create_missing_key_witness :
  kw_weighting Z (kwargs _ _ _ _ without_weighting) = None
  /\ exists key,
       RoughnessExample.create without_weighting grid
       = Raised (KeyError key).
Proof.
  split; [reflexivity|].
  destruct (create_missing_key Z is_negative round_div unit unit unit unit
              check_box_points rotate_2point_object
              generate_fractal_surface without_weighting grid
              (or_intror (or_intror (or_intror (or_introl eq_refl)))))
    as [key [_ Hk]].
  exists key; exact Hk.
Defined.

Lemma example_no_such_box :
  Forall (fun v => ID Z unit v <> "roof"%string) (fractalvolumes _ _ grid).
Proof. repeat constructor; discriminate. Defined.

Lemma create_unknown_box_witness :
  Forall (fun v => ID Z unit v <> "roof"%string) (fractalvolumes _ _ grid)
  /\ RoughnessExample.create on_roof grid = Raised ValueError.
Proof.
  split; [exact example_no_such_box|].
  exact (create_unknown_box Z is_negative round_div unit unit unit unit
           check_box_points rotate_2point_object generate_fractal_surface
           on_roof grid _ _ _ _ _ _ eq_refl eq_refl eq_refl eq_refl eq_refl
           eq_refl example_no_such_box).
Defined.

Lemma create_short_weighting_witness :
  (length [1] < 2)%nat
  /\ RoughnessExample.create single_weighting grid = Raised IndexError.
Proof.
  assert (Hlen : (length [1] < 2)%nat) by (apply le_n).
  split; [exact Hlen|].
  refine (create_short_weighting Z is_negative round_div unit unit unit unit
            check_box_points rotate_2point_object generate_fractal_surface
            single_weighting grid _ _ _ _ _ _ box [] _ _ eq_refl eq_refl eq_refl
            eq_refl eq_refl eq_refl eq_refl eq_refl eq_refl Hlen _).
  intros w0 Hw0; injection Hw0 as <-; reflexivity.
Defined.

End RoughnessWitnesses.
(** ** create_updates, the whole sub-cycle, the CUDA updater *)

Section UpdatesProperties.

Import Updates Schedule.

(** X9: [create_updates] either returns one updater per sub-grid, in the
    order of [G.subgrids], each with the filtered precursor nodes exactly
    when its sub-grid asks for filtering and with [source_iteration] 0,
    and then every sub-grid is a SubGridHSG; or it raises ValueError, and
    then some sub-grid is not a SubGridHSG.  On an empty list it returns
    no updater. *)
Theorem create_updates_result (subgrids : list subgrid) :
  match create_updates subgrids with
  | Ok updaters =>
      Forall (fun sg => sg_type sg = SubGridHSG) subgrids
      /\ map grid updaters = subgrids
      /\ Forall (fun u =>
                   precursors u
                   = (if filter (grid u) then PrecursorNodesFiltered
                      else PrecursorNodes)
                   /\ source_iteration u = 0) updaters
  | Raise e =>
      e = ValueError
      /\ exists sg, In sg subgrids /\ sg_type sg <> SubGridHSG
  end.
Proof.
  induction subgrids as [|sg rest IH]; cbn [create_updates].
  - repeat split; constructor.
  - destruct (pytype_eqb (sg_type sg) SubGridHSG) eqn:Ht; cbn.
    + apply pytype_eqb_hsg in Ht.
      destruct (create_updates rest) as [us|e].
      * destruct IH as [Hall [Hmap Hus]].
        destruct (filter sg) eqn:Hfl; cbn;
          (repeat split;
           [ constructor; assumption
           | cbn; congruence
           | constructor; [cbn; rewrite Hfl; auto | assumption] ]).
      * destruct IH as [-> [bad [Hin Hbad]]].
        destruct (filter sg); cbn; (split; [reflexivity|]);
          exists bad; split; auto; right; exact Hin.
    + split; [reflexivity|].
      exists sg; split; [left; reflexivity|].
      intros Heq; apply pytype_eqb_hsg in Heq; congruence.
Qed.

Lemma shifted_quot m ratio :
  shifted m ratio = Z.quot (m * 4 + ratio * 2 - 2) 4.
Proof.
  unfold shifted, int; cbn.
  f_equal; lia.
Qed.

(** For a ratio of at least 1, odd or even, [upper_m] is (ratio-1)/2
    rounded down. *)
Lemma upper_m_floor ratio : 1 <= ratio -> upper_m ratio = (ratio - 1) / 2.
Proof.
  intros Hr; rewrite upper_m_quot.
  rewrite Z.quot_div_nonneg by lia.
  replace (ratio * 2 - 2) with ((ratio - 1) * 2) by lia.
  replace 4 with (2 * 2) by reflexivity.
  rewrite Z.div_mul_cancel_r by lia; reflexivity.
Qed.

(** In the loop, [int(m + ratio/2 - 0.5)] is [m + upper_m]. *)
Lemma shifted_upper_m m ratio :
  1 <= ratio -> 1 <= m -> shifted m ratio = m + upper_m ratio.
Proof.
  intros Hr Hm; rewrite shifted_quot, upper_m_floor by lia.
  rewrite Z.quot_div_nonneg by lia.
  replace (m * 4 + ratio * 2 - 2) with ((ratio - 1) * 2 + m * (2 * 2))
    by lia.
  replace 4 with (2 * 2) by reflexivity.
  rewrite Z.div_add by lia.
  rewrite Z.div_mul_cancel_r by lia; lia.
Qed.

Lemma count_app p l1 l2 : count p (l1 ++ l2) = (count p l1 + count p l2)%nat.
Proof. unfold count; rewrite filter_app, length_app; reflexivity. Qed.

Lemma count_flat_map {A} p (f : A -> list Call) (l : list A) n :
  (forall x, count p (f x) = n) ->
  count p (flat_map f l) = (length l * n)%nat.
Proof.
  intros Hf; induction l as [|x l IH]; [reflexivity|].
  cbn [flat_map length]; rewrite count_app, Hf, IH; lia.
Qed.

Lemma length_range lo hi : length (range lo hi) = Z.to_nat (hi - lo).
Proof. unfold range; rewrite length_map, length_seq; reflexivity. Qed.


Lemma map_seq_from {B} (g : nat -> B) a n :
  map g (seq a n) = map (fun i => g (a + i)%nat) (seq 0 n).
Proof.
  revert a g; induction n as [|n IH]; intros a g; [reflexivity|].
  cbn [seq map]; rewrite Nat.add_0_r; f_equal.
  rewrite (IH (S a) g), (IH 1%nat (fun i => g (a + i)%nat)).
  apply map_ext; intros i; f_equal; lia.
Qed.

Lemma range_app lo mid hi :
  lo <= mid <= hi -> range lo mid ++ range mid hi = range lo hi.
Proof.
  intros H; unfold range.
  replace (Z.to_nat (hi - lo))
    with (Z.to_nat (mid - lo) + Z.to_nat (hi - mid))%nat by lia.
  rewrite seq_app, map_app; f_equal.
  rewrite (map_seq_from _ (0 + Z.to_nat (mid - lo))).
  apply map_ext; intros i; lia.
Qed.

Lemma range_shift lo hi d :
  map (fun m => m + d) (range lo hi) = range (lo + d) (hi + d).
Proof.
  unfold range; rewrite map_map.
  replace (hi + d - (lo + d)) with (hi - lo) by lia.
  apply map_ext; intros i; lia.
Qed.

Lemma in_range m lo hi : In m (range lo hi) -> lo <= m < hi.
Proof.
  unfold range; rewrite in_map_iff; intros [i [<- Hi]].
  apply in_seq in Hi; lia.
Qed.

Lemma flat_map_single {A B} (f : A -> B) (l : list A) :
  flat_map (fun x => [f x]) l = map f l.
Proof. induction l; cbn; congruence. Qed.

Lemma magnetic_steps_flat_map {A} (f : A -> list Call) l :
  magnetic_steps (flat_map f l) = flat_map (fun x => magnetic_steps (f x)) l.
Proof.
  unfold magnetic_steps; induction l as [|x l IH]; [reflexivity|].
  cbn [flat_map]; rewrite flat_map_app, IH; reflexivity.
Qed.

Lemma electric_steps_flat_map {A} (f : A -> list Call) l :
  electric_steps (flat_map f l) = flat_map (fun x => electric_steps (f x)) l.
Proof.
  unfold electric_steps; induction l as [|x l IH]; [reflexivity|].
  cbn [flat_map]; rewrite flat_map_app, IH; reflexivity.
Qed.


(** X12: each phase reads the main grid once, first (the precursor
    snapshot), and writes it once, last (the OS injection): [hsg_1] opens
    with the electric snapshot and closes with the electric OS
    injection, [hsg_2] with the magnetic ones, and no call in between is
    a snapshot or an OS injection, for every ratio. *)
Theorem phase_brackets_main_grid_access (ratio : Z) :
  (exists mid,
      trace (hsg_1 ratio)
      = Precursors Prec.update_electric
          :: mid ++ [SubGrid update_electric_os]
      /\ Forall (fun c => touches_main_grid c = false) mid)
  /\ (exists mid,
         trace (hsg_2 ratio)
         = Precursors Prec.update_magnetic
             :: mid ++ [SubGrid update_magnetic_os]
         /\ Forall (fun c => touches_main_grid c = false) mid).
Proof.
  split.
  - exists (flat_map (fun m => trace (hsg_1_substep ratio m))
                     (range 1 (upper_m ratio + 1))
            ++ [Self store_outputs; Self update_electric_a;
                Self update_electric_pml;
                Precursors Prec.calc_exact_magnetic_in_time;
                SubGrid update_electric_is; Self update_electric_sources;
                Self update_electric_b]).
    split.
    + rewrite hsg_1_trace, <- app_assoc; reflexivity.
    + apply Forall_app; split.
      * apply Forall_flat_map, Forall_forall; intros m _.
        repeat constructor.
      * repeat constructor.
  - exists (flat_map (fun m => trace (hsg_2_substep ratio m))
                     (range 1 (upper_m ratio + 1))
            ++ [Self update_magnetic; Self update_magnetic_pml;
                Precursors Prec.calc_exact_electric_in_time;
                SubGrid update_magnetic_is; Self update_magnetic_sources]).
    split.
    + rewrite hsg_2_trace, <- app_assoc; reflexivity.
    + apply Forall_app; split.
      * apply Forall_flat_map, Forall_forall; intros m _.
        repeat constructor.
      * repeat constructor.
Qed.

Lemma last_cons_default {A} (x : A) l d : last (x :: l) d = last l x.
Proof.
  revert x d; induction l as [|y l IH]; intros x d; [reflexivity|].
  change (last (x :: y :: l) d) with (last (y :: l) d).
  rewrite (IH y d), (IH y x); reflexivity.
Qed.

(** X24: for a ratio of 2 or less (zero and negative ratios included)
    the loops of [hsg_1] and [hsg_2] do not run at all: each phase is its
    snapshot followed by its closing partial step, and the interpolation
    is never called. *)
Theorem no_substeps_below_ratio_three (ratio : Z) :
  ratio <= 2 ->
  trace (hsg_1 ratio)
  = Precursors Prec.update_electric :: trace hsg_1_last
  /\ trace (hsg_2 ratio)
     = Precursors Prec.update_magnetic :: trace hsg_2_last
  /\ magnetic_steps (trace (hsg_2 ratio) ++ trace (hsg_1 ratio)) = []
  /\ electric_steps (trace (hsg_1 ratio) ++ trace (hsg_2 ratio)) = [].
Proof.
  intros Hr.
  assert (Hu : upper_m ratio <= 0).
  { rewrite upper_m_quot.
    destruct (Z.le_gt_cases 0 (ratio * 2 - 2)) as [Hpos | Hneg].
    - rewrite Z.quot_small by lia; lia.
    - pose proof (Z.quot_opp_l (- (ratio * 2 - 2)) 4 ltac:(lia)) as Hq.
      rewrite Z.opp_involutive in Hq; rewrite Hq.
      pose proof (Z.quot_pos (- (ratio * 2 - 2)) 4 ltac:(lia) ltac:(lia)).
      lia. }
  assert (Hrange : range 1 (upper_m ratio + 1) = []).
  { unfold range.
    replace (Z.to_nat (upper_m ratio + 1 - 1)) with 0%nat by lia.
    reflexivity. }
  assert (H1 : trace (hsg_1 ratio)
               = Precursors Prec.update_electric :: trace hsg_1_last)
    by (rewrite hsg_1_trace, Hrange; reflexivity).
  assert (H2 : trace (hsg_2 ratio)
               = Precursors Prec.update_magnetic :: trace hsg_2_last)
    by (rewrite hsg_2_trace, Hrange; reflexivity).
  repeat split; auto; rewrite H1, H2; reflexivity.
Qed.

Lemma guarded_app ok inj prev l1 l2 :
  guarded ok inj prev (l1 ++ l2)
  = guarded ok inj prev l1
    && guarded ok inj (last (map Some l1) prev) l2.
Proof.
  revert prev; induction l1 as [|c l1 IH]; intros prev; [reflexivity|].
  cbn [app guarded map]; rewrite IH, Bool.andb_assoc.
  rewrite last_cons_default; reflexivity.
Qed.

Lemma guarded_blocks {A} ok inj (f : A -> list Call) (l : list A) :
  (forall x prev, guarded ok inj prev (f x) = true) ->
  forall prev, guarded ok inj prev (flat_map f l) = true.
Proof.
  intros Hf; induction l as [|x l IH]; intros prev; [reflexivity|].
  cbn [flat_map]; rewrite guarded_app, Hf, IH; reflexivity.
Qed.

Lemma guarded_sound ok inj l :
  forall prev, guarded ok inj prev l = true ->
  forall pre c post,
    l = pre ++ c :: post -> inj c = true ->
    exists p, last (map Some pre) prev = Some p /\ ok p = true.
Proof.
  induction l as [|x l IH]; intros prev Hg pre c post Hl Hc.
  - destruct pre; discriminate.
  - cbn [guarded] in Hg; apply Bool.andb_true_iff in Hg.
    destruct Hg as [Hx Hrest].
    destruct pre as [|y pre]; cbn in Hl; injection Hl as -> ->.
    + rewrite Hc in Hx; destruct prev as [p|]; [|discriminate].
      exists p; auto.
    + destruct (IH (Some y) Hrest pre c post eq_refl Hc) as [p [Hp Hok]].
      exists p; split; [|exact Hok].
      cbn [map]; rewrite last_cons_default; exact Hp.
Qed.

Lemma coarse_step_guarded ok inj ratio :
  (forall m prev, guarded ok inj prev (trace (hsg_1_substep ratio m)) = true) ->
  (forall m prev, guarded ok inj prev (trace (hsg_2_substep ratio m)) = true) ->
  (forall prev, guarded ok inj prev (trace hsg_1_last) = true) ->
  (forall prev, guarded ok inj prev (trace hsg_2_last) = true) ->
  inj (Precursors Prec.update_electric) = false ->
  inj (Precursors Prec.update_magnetic) = false ->
  guarded ok inj None (trace (hsg_2 ratio) ++ trace (hsg_1 ratio)) = true.
Proof.
  intros H1 H2 L1 L2 S1 S2.
  rewrite hsg_1_trace, hsg_2_trace.
  rewrite !guarded_app, !(guarded_blocks ok inj _ _ (H1)),
    !(guarded_blocks ok inj _ _ (H2)), L1, L2.
  cbn [guarded]; rewrite S1, S2; reflexivity.
Qed.

(** X13: throughout a coarse step ([hsg_2] then [hsg_1]), every IS
    injection comes directly after the precursor call that sets the
    boundary sample it injects: [update_electric_is] directly after an
    interpolation or the exact value of the magnetic field,
    [update_magnetic_is] directly after one of the electric field; no
    other call comes between them. *)
Theorem is_injection_follows_its_sample
    (ratio : Z) (pre : list Call) (c : Call) (post : list Call) :
  trace (hsg_2 ratio) ++ trace (hsg_1 ratio) = pre ++ c :: post ->
  (is_electric_is c = true ->
   exists pre' p, pre = pre' ++ [p] /\ is_magnetic_sample p = true)
  /\ (is_magnetic_is c = true ->
      exists pre' p, pre = pre' ++ [p] /\ is_electric_sample p = true).
Proof.
  intros Hlog.
  assert (Hlast : forall p, last (map Some pre) None = Some p ->
                            exists pre', pre = pre' ++ [p]).
  { intros p Hp; destruct pre as [|x pre'] using rev_ind; [discriminate|].
    rewrite map_app in Hp; cbn [map] in Hp; rewrite last_last in Hp.
    injection Hp as ->; eauto. }
  split; intros Hc.
  - assert (Hg : guarded is_magnetic_sample is_electric_is None
                   (trace (hsg_2 ratio) ++ trace (hsg_1 ratio)) = true)
      by (apply coarse_step_guarded; intros; reflexivity).
    destruct (guarded_sound _ _ _ _ Hg pre c post Hlog Hc) as [p [Hp Hok]].
    destruct (Hlast p Hp) as [pre' ->]; eauto.
  - assert (Hg : guarded is_electric_sample is_magnetic_is None
                   (trace (hsg_2 ratio) ++ trace (hsg_1 ratio)) = true)
      by (apply coarse_step_guarded; intros; reflexivity).
    destruct (guarded_sound _ _ _ _ Hg pre c post Hlog Hc) as [p [Hp Hok]].
    destruct (Hlast p Hp) as [pre' ->]; eauto.
Qed.

End UpdatesProperties.

Section UpdatesWitnesses.

Import Updates Schedule.



Lemma no_substeps_below_ratio_three_witness :
  0 <= 2
  /\ trace (hsg_1 0)
     = Precursors Prec.update_electric :: trace hsg_1_last.
Proof.
  assert (H : 0 <= 2) by discriminate.
  split; [exact H|].
  exact (proj1 (no_substeps_below_ratio_three 0 H)).
Defined.

Lemma is_injection_follows_its_sample_witness :
  trace (hsg_2 3) ++ trace (hsg_1 3)
  = firstn 4 (trace (hsg_2 3) ++ trace (hsg_1 3))
    ++ SubGrid update_magnetic_is
    :: skipn 5 (trace (hsg_2 3) ++ trace (hsg_1 3))
  /\ exists pre' p,
       firstn 4 (trace (hsg_2 3) ++ trace (hsg_1 3)) = pre' ++ [p]
       /\ is_electric_sample p = true.
Proof.
  assert (H : trace (hsg_2 3) ++ trace (hsg_1 3)
              = firstn 4 (trace (hsg_2 3) ++ trace (hsg_1 3))
                ++ SubGrid update_magnetic_is
                :: skipn 5 (trace (hsg_2 3) ++ trace (hsg_1 3)))
    by reflexivity.
  split; [exact H|].
  exact (proj2 (is_injection_follows_its_sample 3 _ _ _ H) eq_refl).
Defined.

End UpdatesWitnesses.

Section CUDAUpdaterProperties.

Import Updates.

Lemma map_flat_map_log {A B C} (g : B -> C) (f : A -> list B) (l : list A) :
  map g (flat_map f l) = flat_map (fun x => map g (f x)) l.
Proof.
  induction l as [|x l IH]; [reflexivity|].
  cbn [flat_map]; rewrite map_app, IH; reflexivity.
Qed.


End CUDAUpdaterProperties.
(** ** SubgridUpdates: all sub-grids *)

Section AggregateProperties.

Import Updates Schedule.

Lemma hsg_1_outcome ratio : outcome (hsg_1 ratio) = Ok tt.
Proof.
  unfold hsg_1.
  destruct (for_each_trace (hsg_1_substep ratio)
              (range 1 (upper_m ratio + 1)) (hsg_1_substep_ok ratio))
    as [Ht Ho].
  destruct (for_each _ _) as [l r]; cbn in Ht, Ho; subst l r.
  reflexivity.
Qed.

Lemma hsg_2_outcome ratio : outcome (hsg_2 ratio) = Ok tt.
Proof.
  unfold hsg_2.
  destruct (for_each_trace (hsg_2_substep ratio)
              (range 1 (upper_m ratio + 1)) (hsg_2_substep_ok ratio))
    as [Ht Ho].
  destruct (for_each _ _) as [l r]; cbn in Ht, Ho; subst l r.
  reflexivity.
Qed.

Lemma filter_flat_map_nil {A B} (p : B -> bool) (f : A -> list B) l :
  (forall x, List.filter p (f x) = []) ->
  List.filter p (flat_map f l) = [].
Proof.
  intros Hf; induction l as [|x l IH]; [reflexivity|].
  cbn [flat_map]; rewrite filter_app, Hf, IH; reflexivity.
Qed.

Lemma filter_map_pair {A B} (p : B -> bool) (a : A) (l : list B) :
  List.filter (fun e => p (snd e)) (map (pair a) l)
  = map (pair a) (List.filter p l).
Proof.
  induction l as [|x l IH]; [reflexivity|].
  cbn [map List.filter snd]; destruct (p x); cbn [map]; congruence.
Qed.

Lemma hsg_1_os ratio :
  List.filter is_os_injection (trace (hsg_1 ratio))
  = [SubGrid update_electric_os].
Proof.
  rewrite hsg_1_trace, !filter_app.
  rewrite (filter_flat_map_nil is_os_injection) by (intros; reflexivity).
  reflexivity.
Qed.

Lemma hsg_2_os ratio :
  List.filter is_os_injection (trace (hsg_2 ratio))
  = [SubGrid update_magnetic_os].
Proof.
  rewrite hsg_2_trace, !filter_app.
  rewrite (filter_flat_map_nil is_os_injection) by (intros; reflexivity).
  reflexivity.
Qed.

(** X15: [SubgridUpdates.hsg_1] and [hsg_2] run the sub-grids one after
    the other in the order of [self.updaters], each through its whole
    phase before the next starts, and return; so the main grid receives
    one OS injection per sub-grid, in that order (none when there is no
    sub-grid). *)
Theorem aggregate_runs_updaters_in_order (updaters : list SubgridUpdater) :
  let log1 := trace (Aggregate.hsg_1 updaters) in
  let log2 := trace (Aggregate.hsg_2 updaters) in
  (log1 = flat_map (fun u => map (pair u)
                                 (trace (hsg_1 (ratio (grid u))))) updaters
   /\ outcome (Aggregate.hsg_1 updaters) = Ok tt
   /\ List.filter (fun e => is_os_injection (snd e)) log1
      = map (fun u => (u, SubGrid update_electric_os)) updaters)
  /\ (log2 = flat_map (fun u => map (pair u)
                                    (trace (hsg_2 (ratio (grid u)))))
                      updaters
      /\ outcome (Aggregate.hsg_2 updaters) = Ok tt
      /\ List.filter (fun e => is_os_injection (snd e)) log2
         = map (fun u => (u, SubGrid update_magnetic_os)) updaters).
Proof.
  cbv zeta; unfold Aggregate.hsg_1, Aggregate.hsg_2; split.
  - destruct (for_each_trace
                (fun u => Aggregate.on u (hsg_1 (ratio (grid u)))) updaters
                (fun u => hsg_1_outcome _)) as [Ht Ho].
    rewrite Ht; repeat split; [exact Ho|].
    induction updaters as [|u us IH]; [reflexivity|].
    cbn [flat_map map]; rewrite filter_app.
    unfold Aggregate.on at 1; cbn [trace fst].
    rewrite filter_map_pair, hsg_1_os.
    cbn [map app]; f_equal; apply IH.
    apply for_each_trace; intros; apply hsg_1_outcome.
    apply for_each_trace; intros; apply hsg_1_outcome.
  - destruct (for_each_trace
                (fun u => Aggregate.on u (hsg_2 (ratio (grid u)))) updaters
                (fun u => hsg_2_outcome _)) as [Ht Ho].
    rewrite Ht; repeat split; [exact Ho|].
    induction updaters as [|u us IH]; [reflexivity|].
    cbn [flat_map map]; rewrite filter_app.
    unfold Aggregate.on at 1; cbn [trace fst].
    rewrite filter_map_pair, hsg_2_os.
    cbn [map app]; f_equal; apply IH.
    apply for_each_trace; intros; apply hsg_2_outcome.
    apply for_each_trace; intros; apply hsg_2_outcome.
Qed.

End AggregateProperties.
(** ** Solver: the loop without sub-grids, the result, the setup *)

Section SolverProperties.

Import SolverLog.

Variable cuda_flag : bool.
Variable V : Type.
Variable tsolve_value : V.
Variable memsolve_value : Z -> V.

Abbreviation solve := (Solver.solve cuda_flag V tsolve_value memsolve_value).
Abbreviation solve_iteration :=
  (Solver.solve_iteration cuda_flag V memsolve_value).

Lemma snapshots_iteration hsg iteration :
  snapshots (Solver.iteration_calls cuda_flag hsg iteration) = [iteration].
Proof. destruct hsg, cuda_flag; reflexivity. Qed.

Lemma hsg_calls_iteration hsg iteration :
  List.filter is_hsg (Solver.iteration_calls cuda_flag hsg iteration)
  = if hsg then [hsg_2; hsg_1] else [].
Proof. destruct hsg, cuda_flag; reflexivity. Qed.

(** X16: [Solver.solve] hands every value the iterator yields to
    [store_snapshots] once, in the order yielded, and calls [hsg_2] then
    [hsg_1] once per iteration when built with [hsg = True]; built
    without it, it never calls either. *)
Theorem solve_iterations_and_coupling
    (self : Solver.Solver) (iterator : list Z) :
  snapshots (trace (solve self iterator)) = iterator
  /\ List.filter is_hsg (trace (solve self iterator))
     = if Solver.hsg self
       then flat_map (fun _ => [hsg_2; hsg_1]) iterator
       else [].
Proof.
  rewrite solve_trace; split.
  - unfold snapshots; rewrite !flat_map_app; cbn [flat_map app].
    rewrite app_nil_r.
    induction iterator as [|x xs IH]; [reflexivity|].
    cbn [flat_map]; rewrite flat_map_app, IH.
    fold (snapshots (Solver.iteration_calls cuda_flag (Solver.hsg self) x)).
    rewrite snapshots_iteration; reflexivity.
  - rewrite !filter_app; cbn [List.filter is_hsg app].
    rewrite app_nil_r.
    induction iterator as [|x xs IH].
    + destruct (Solver.hsg self); reflexivity.
    + cbn [flat_map]; rewrite filter_app, IH, hsg_calls_iteration.
      destruct (Solver.hsg self); reflexivity.
Qed.

Lemma solve_loop_last self iterator :
  forall memsolve,
    outcome (for_in iterator memsolve (solve_iteration self))
    = Ok (match iterator with
          | [] => memsolve
          | _ => Some (if cuda_flag
                       then Some (memsolve_value (last iterator 0))
                       else None)
          end).
Proof.
  induction iterator as [|x xs IH]; intros memsolve; [reflexivity|].
  cbn [for_in].
  assert (Ho : outcome (solve_iteration self memsolve x)
               = Ok (Some (if cuda_flag then Some (memsolve_value x)
                           else None))).
  { unfold Solver.solve_iteration.
    destruct (Solver.hsg self), cuda_flag; reflexivity. }
  destruct (trace_bind_ok _ (fun s' => for_in xs s' (solve_iteration self))
              _ Ho) as [_ Ho'].
  rewrite Ho', IH.
  destruct xs as [|y ys]; reflexivity.
Qed.

(** X17: on a non-empty iterator [Solver.solve] returns the value of
    [calculate_tsolve()] together with, on the CUDA path, the value of
    [calculate_memsolve] for the last iteration only, and [None]
    otherwise. *)
Theorem solve_result (self : Solver.Solver) (iterator : list Z) :
  iterator <> [] ->
  outcome (solve self iterator)
  = Ok (tsolve_value,
        if cuda_flag then Some (memsolve_value (last iterator 0)) else None).
Proof.
  intros Hne; rewrite solve_outcome, solve_loop_last.
  destruct iterator; [congruence | reflexivity].
Qed.

End SolverProperties.

Lemma solve_result_witness :
  [4; 5; 6] <> @nil Z
  /\ outcome (Solver.solve true Z 0 (fun iteration => 100 + iteration)
                {| Solver.updates := Solver.CUDAUpdates;
                   Solver.hsg := false |} [4; 5; 6])
     = Ok (0, Some 106).
Proof.
  assert (Hne : [4; 5; 6] <> @nil Z) by discriminate.
  split; [exact Hne|].
  exact (solve_result true Z 0 (fun iteration => 100 + iteration)
           {| Solver.updates := Solver.CUDAUpdates; Solver.hsg := false |}
           [4; 5; 6] Hne).
Defined.

Section SetupProperties.

Import Updates.

(** When [create_updates] raises, it raises ValueError over a sub-grid
    that is not a SubGridHSG. *)
Lemma create_updates_raises subgrids e :
  create_updates subgrids = Raise e ->
  e = ValueError
  /\ exists sg, In sg subgrids /\ sg_type sg <> SubGridHSG.
Proof.
  induction subgrids as [|sg rest IH]; cbn [create_updates]; [discriminate|].
  destruct (pytype_eqb (sg_type sg) SubGridHSG) eqn:Ht; cbn.
  - destruct (create_updates rest) as [us|e'].
    + destruct (filter sg); discriminate.
    + intros He.
      assert (e' = e) by (destruct (filter sg); cbn in He; congruence).
      subst e'; destruct (IH eq_refl) as [-> [bad [Hin Hbad]]].
      split; [reflexivity|]; exists bad; split; [right|]; assumption.
  - intros He; injection He as <-; split; [reflexivity|].
    exists sg; split; [left; reflexivity|].
    intros Heq; apply pytype_eqb_hsg in Heq; congruence.
Qed.

(** X18: [create_solver] returns a Solver whose [hsg] flag is the
    [subgrid] setting, over the sub-grid updates when it is set and
    otherwise over the CPU updates if [cpu] is set, else the CUDA updates
    if [cuda] is set; the dispersive-material functions are configured on
    every path but the two CUDA ones.  It raises ValueError when
    sub-gridding is set and some sub-grid is not a SubGridHSG, and
    UnboundLocalError when none of the three settings is on; it fails in
    no other case. *)
Theorem create_solver_result
    (config : Solver.general) (G : Solver.model_grid) :
  match outcome (Solver.create_solver config G) with
  | Ok solver =>
      Solver.hsg solver = Solver.subgrid config
      /\ (if Solver.subgrid config
          then exists updaters,
                 create_updates (Solver.subgrids G) = Ok updaters
                 /\ Solver.updates solver = Solver.SubgridUpdates updaters
          else if Solver.cpu config
          then Solver.updates solver = Solver.CPUUpdates
          else Solver.cuda config = true
               /\ Solver.updates solver = Solver.CUDAUpdates)
      /\ trace (Solver.create_solver config G)
         = (if (Solver.subgrid config && negb (Solver.cuda config))
               || (negb (Solver.subgrid config) && Solver.cpu config)
            then [Solver.adapt_dispersive_config;
                  Solver.set_dispersive_updates]
            else [])
  | Raise e =>
      trace (Solver.create_solver config G) = []
      /\ ((Solver.subgrid config = true /\ e = ValueError
           /\ exists sg, In sg (Solver.subgrids G)
                         /\ sg_type sg <> SubGridHSG)
          \/ (Solver.subgrid config = false /\ Solver.cpu config = false
              /\ Solver.cuda config = false /\ e = UnboundLocalError))
  end.
Proof.
  unfold Solver.create_solver.
  destruct (Solver.subgrid config) eqn:Hs.
  - destruct (create_updates (Solver.subgrids G)) as [us|e] eqn:Hu.
    + destruct (Solver.cuda config); cbn; repeat split; eauto.
    + destruct (create_updates_raises _ _ Hu) as [-> Hbad].
      cbn; split; [reflexivity|]; left; auto.
  - destruct (Solver.cpu config) eqn:Hc; [cbn; repeat split; auto|].
    destruct (Solver.cuda config) eqn:Hg; cbn; repeat split; auto.
Qed.

(** X19: without sub-gridding, [create_G] and [create_solver] choose the
    same backend from the same settings: an FDTDGrid goes with CPU
    updates, a CUDAGrid with CUDA updates, and they fail together, with
    UnboundLocalError, when neither [cpu] nor [cuda] is set; [cpu] wins
    when both are set. *)
Theorem create_G_and_create_solver_agree
    (config : Solver.general) (G : Solver.model_grid) :
  Solver.subgrid config = false ->
  match Solver.create_G config, outcome (Solver.create_solver config G) with
  | Ok Solver.FDTDGrid, Ok solver =>
      Solver.cpu config = true
      /\ Solver.updates solver = Solver.CPUUpdates
  | Ok Solver.CUDAGrid, Ok solver =>
      Solver.cpu config = false /\ Solver.cuda config = true
      /\ Solver.updates solver = Solver.CUDAUpdates
  | Raise e1, Raise e2 =>
      Solver.cpu config = false /\ Solver.cuda config = false
      /\ e1 = UnboundLocalError /\ e2 = UnboundLocalError
  | _, _ => False
  end.
Proof.
  intros Hs; unfold Solver.create_G, Solver.create_solver; rewrite Hs.
  destruct (Solver.cpu config), (Solver.cuda config); cbn; auto.
Qed.

End SetupProperties.

Lemma create_G_and_create_solver_agree_witness :
  Solver.subgrid {| Solver.cpu := true; Solver.cuda := true;
                    Solver.subgrid := false |} = false
  /\ (Solver.cpu {| Solver.cpu := true; Solver.cuda := true;
                    Solver.subgrid := false |} = true
      /\ Solver.updates {| Solver.updates := Solver.CPUUpdates;
                           Solver.hsg := false |} = Solver.CPUUpdates).
Proof.
  split; [reflexivity|].
  exact (create_G_and_create_solver_agree
           {| Solver.cpu := true; Solver.cuda := true;
              Solver.subgrid := false |}
           {| Solver.cls := Solver.FDTDGrid; Solver.subgrids := [] |}
           eq_refl).
Defined.
(** ** Footprints of the boundary exchange *)

Section FootprintProperties.

Import HSG Footprint.

Variable Arr : Type.
Variable K : kernels Arr.
Variable ompthreads : Z.

Lemma cython_update_is_agree (refs : list ref)
    nwx nwy nwz updatecoeffs ID nb offset nwl nwm nwn face
    field inc_l inc_u lookup_id sign_l sign_u co nthreads st1 st2 :
  In updatecoeffs refs -> In ID refs -> In field refs ->
  In inc_l refs -> In inc_u refs ->
  agree refs st1 st2 ->
  agree refs
    (cython_update_is Arr K nwx nwy nwz updatecoeffs ID nb offset nwl nwm
       nwn face field inc_l inc_u lookup_id sign_l sign_u co nthreads st1)
    (cython_update_is Arr K nwx nwy nwz updatecoeffs ID nb offset nwl nwm
       nwn face field inc_l inc_u lookup_id sign_l sign_u co nthreads st2).
Proof.
  intros Hc Hi Hf Hl Hu Ha r Hr; unfold cython_update_is, upd.
  destruct (Pos.eqb r field); [|exact (Ha r Hr)].
  rewrite (Ha _ Hc), (Ha _ Hi), (Ha _ Hf), (Ha _ Hl), (Ha _ Hu).
  reflexivity.
Qed.

Lemma cython_update_electric_os_agree (refs : list ref)
    updatecoeffs ID face l_l l_u m_l m_u n_l n_u nwn lookup_id field
    inc_field co sign_n sign_f mid r_ s nb nthreads st1 st2 :
  In updatecoeffs refs -> In ID refs -> In field refs ->
  In inc_field refs ->
  agree refs st1 st2 ->
  agree refs
    (cython_update_electric_os Arr K updatecoeffs ID face l_l l_u m_l m_u
       n_l n_u nwn lookup_id field inc_field co sign_n sign_f mid r_ s nb
       nthreads st1)
    (cython_update_electric_os Arr K updatecoeffs ID face l_l l_u m_l m_u
       n_l n_u nwn lookup_id field inc_field co sign_n sign_f mid r_ s nb
       nthreads st2).
Proof.
  intros Hc Hi Hf Hl Ha r Hr; unfold cython_update_electric_os, upd.
  destruct (Pos.eqb r field); [|exact (Ha r Hr)].
  rewrite (Ha _ Hc), (Ha _ Hi), (Ha _ Hf), (Ha _ Hl).
  reflexivity.
Qed.

Lemma cython_update_magnetic_os_agree (refs : list ref)
    updatecoeffs ID face l_l l_u m_l m_u n_l n_u nwn lookup_id field
    inc_field co sign_n sign_f mid r_ s nb nthreads st1 st2 :
  In updatecoeffs refs -> In ID refs -> In field refs ->
  In inc_field refs ->
  agree refs st1 st2 ->
  agree refs
    (cython_update_magnetic_os Arr K updatecoeffs ID face l_l l_u m_l m_u
       n_l n_u nwn lookup_id field inc_field co sign_n sign_f mid r_ s nb
       nthreads st1)
    (cython_update_magnetic_os Arr K updatecoeffs ID face l_l l_u m_l m_u
       n_l n_u nwn lookup_id field inc_field co sign_n sign_f mid r_ s nb
       nthreads st2).
Proof.
  intros Hc Hi Hf Hl Ha r Hr; unfold cython_update_magnetic_os, upd.
  destruct (Pos.eqb r field); [|exact (Ha r Hr)].
  rewrite (Ha _ Hc), (Ha _ Hi), (Ha _ Hf), (Ha _ Hl).
  reflexivity.
Qed.

Ltac in_refs := cbn; auto 25.

(** X20: the IS injections work on the sub-grid alone.  What
    [update_electric_is] leaves in the store is determined, on the
    arrays it is handed (Ex, Ey, Ez, updatecoeffsE, ID of the sub-grid and
    the twelve magnetic precursor buffers), by what those arrays held:
    it reads no magnetic field array, no electric precursor buffer and
    nothing of the main grid; and it changes no array but Ex, Ey, Ez of
    the sub-grid.  The same holds for [update_magnetic_is] with the two
    fields exchanged. *)
Theorem is_injection_footprint
    (self : SubGrid) (precursors : precursor_nodes) (st1 st2 : store Arr) :
  (agree (electric_is_reads self precursors) st1 st2 ->
   agree (electric_is_reads self precursors)
     (update_electric_is Arr K ompthreads self precursors st1)
     (update_electric_is Arr K ompthreads self precursors st2))
  /\ (agree (magnetic_is_reads self precursors) st1 st2 ->
      agree (magnetic_is_reads self precursors)
        (update_magnetic_is Arr K ompthreads self precursors st1)
        (update_magnetic_is Arr K ompthreads self precursors st2))
  /\ (forall r, ~ In r (electric_is_writes self) ->
                update_electric_is Arr K ompthreads self precursors st1 r
                = st1 r)
  /\ (forall r, ~ In r (magnetic_is_writes self) ->
                update_magnetic_is Arr K ompthreads self precursors st1 r
                = st1 r).
Proof.
  repeat split.
  - intros Ha; unfold update_electric_is; cbv zeta.
    repeat (apply cython_update_is_agree; [in_refs ..|]); exact Ha.
  - intros Ha; unfold update_magnetic_is; cbv zeta.
    repeat (apply cython_update_is_agree; [in_refs ..|]); exact Ha.
  - intros r Hr; apply update_electric_is_frame;
      intros ->; apply Hr; in_refs.
  - intros r Hr; apply update_magnetic_is_frame;
      intros ->; apply Hr; in_refs.
Qed.

(** X21: the OS injections take from the sub-grid only the field of
    the other kind.  What [update_electric_os] leaves in Ex, Ey, Ez,
    updatecoeffsE, ID of the main grid and Hx, Hy, Hz of the sub-grid is
    determined by what those eight arrays held: the sub-grid's electric
    arrays and the main grid's magnetic arrays are not read; and it
    changes no array but Ex, Ey, Ez of the main grid.  The same holds for
    [update_magnetic_os] with the two fields exchanged. *)
Theorem os_injection_footprint
    (self : SubGrid) (main_grid : FDTDGrid) (st1 st2 : store Arr) :
  (agree (electric_os_reads self main_grid) st1 st2 ->
   agree (electric_os_reads self main_grid)
     (update_electric_os Arr K ompthreads self main_grid st1)
     (update_electric_os Arr K ompthreads self main_grid st2))
  /\ (agree (magnetic_os_reads self main_grid) st1 st2 ->
      agree (magnetic_os_reads self main_grid)
        (update_magnetic_os Arr K ompthreads self main_grid st1)
        (update_magnetic_os Arr K ompthreads self main_grid st2))
  /\ (forall r, ~ In r (electric_os_writes main_grid) ->
                update_electric_os Arr K ompthreads self main_grid st1 r
                = st1 r)
  /\ (forall r, ~ In r (magnetic_os_writes main_grid) ->
                update_magnetic_os Arr K ompthreads self main_grid st1 r
                = st1 r).
Proof.
  repeat split.
  - intros Ha; unfold update_electric_os; cbv zeta.
    repeat (apply cython_update_electric_os_agree; [in_refs ..|]); exact Ha.
  - intros Ha; unfold update_magnetic_os; cbv zeta.
    repeat (apply cython_update_magnetic_os_agree; [in_refs ..|]); exact Ha.
  - intros r Hr; apply update_electric_os_frame;
      intros ->; apply Hr; in_refs.
  - intros r Hr; apply update_magnetic_os_frame;
      intros ->; apply Hr; in_refs.
Qed.

End FootprintProperties.

Section FootprintWitnesses.

Import HSG Footprint Example FootprintExample.

Ltac same_contents :=
  intros r Hr; cbn in Hr;
  repeat (destruct Hr as [Hr | Hr]; [subst r; reflexivity|]);
  destruct Hr.

Lemma example_agree_is :
  agree (electric_is_reads sub_grid precursors) st0 other_Hx.
Proof. same_contents. Defined.

Lemma example_agree_os :
  agree (electric_os_reads sub_grid main_grid) st0 other_Ex.
Proof. same_contents. Defined.

Lemma is_injection_footprint_witness :
  agree (electric_is_reads sub_grid precursors) st0 other_Hx
  /\ st0 (Hx sub_grid) <> other_Hx (Hx sub_grid)
  /\ update_electric_is (list Z) recording 4 sub_grid precursors st0
       (Ez sub_grid)
     = update_electric_is (list Z) recording 4 sub_grid precursors other_Hx
         (Ez sub_grid).
Proof.
  split; [exact example_agree_is|]; split; [discriminate|].
  exact (proj1 (is_injection_footprint (list Z) recording 4 sub_grid
                  precursors st0 other_Hx)
           example_agree_is (Ez sub_grid)
           (or_intror (or_intror (or_introl eq_refl)))).
Defined.

Lemma os_injection_footprint_witness :
  agree (electric_os_reads sub_grid main_grid) st0 other_Ex
  /\ st0 (Ex sub_grid) <> other_Ex (Ex sub_grid)
  /\ update_electric_os (list Z) recording 4 sub_grid main_grid st0
       (Ex main_grid)
     = update_electric_os (list Z) recording 4 sub_grid main_grid other_Ex
         (Ex main_grid).
Proof.
  split; [exact example_agree_os|]; split; [discriminate|].
  exact (proj1 (os_injection_footprint (list Z) recording 4 sub_grid
                  main_grid st0 other_Ex)
           example_agree_os (Ex main_grid) (or_introl eq_refl)).
Defined.

End FootprintWitnesses.
(** ** The OS injections on the device against those on the host *)

Section CUDAOSProperties.

Import HSG CUDAOS.

Variable Arr : Type.
Variable K : kernels Arr.
Variable KO : os_kernels Arr.
Variable ompthreads : Z.

Lemma pairs_fst_inj (pairs : list (ref * ref)) h d d' :
  NoDup (map fst pairs) -> In (h, d) pairs -> In (h, d') pairs -> d = d'.
Proof.
  induction pairs as [|[a b] l IH]; intros Hn H1 H2; [destruct H1|].
  cbn in Hn; inversion Hn as [|x xs Hnotin Hn']; subst.
  destruct H1 as [H1 | H1], H2 as [H2 | H2].
  - congruence.
  - injection H1 as -> ->.
    exfalso; apply Hnotin; change h with (fst (h, d')); now apply in_map.
  - injection H2 as -> ->.
    exfalso; apply Hnotin; change h with (fst (h, d)); now apply in_map.
  - now apply IH.
Qed.

Lemma pairs_snd_inj (pairs : list (ref * ref)) h h' d :
  NoDup (map snd pairs) -> In (h, d) pairs -> In (h', d) pairs -> h = h'.
Proof.
  induction pairs as [|[a b] l IH]; intros Hn H1 H2; [destruct H1|].
  cbn in Hn; inversion Hn as [|x xs Hnotin Hn']; subst.
  destruct H1 as [H1 | H1], H2 as [H2 | H2].
  - congruence.
  - injection H1 as -> ->.
    exfalso; apply Hnotin; change d with (snd (h', d)); now apply in_map.
  - injection H2 as -> ->.
    exfalso; apply Hnotin; change d with (snd (h, d)); now apply in_map.
  - now apply IH.
Qed.

Lemma nodup_positions (l : list ref) i j a b :
  NoDup l -> nth_error l i = Some a -> nth_error l j = Some b ->
  i <> j -> a <> b.
Proof.
  intros Hn Hi Hj Hij ->; apply Hij.
  apply (proj1 (NoDup_nth_error l) Hn).
  - apply nth_error_Some; congruence.
  - congruence.
Qed.

Lemma copy_same (st : store Arr) dst src : copy Arr dst src st dst = st src.
Proof. unfold copy; apply upd_same. Qed.

Lemma copy_other (st : store Arr) dst src r :
  r <> dst -> copy Arr dst src st r = st r.
Proof. unfold copy; apply upd_other. Qed.

Lemma launch_frame kernel template
    face co sign_n sign_f mid r_ s nb nwn lookup_id l_l l_u m_l m_u n_l n_u
    updatecoeffs ID field inc_field block grid (st : store Arr) r :
  r <> field ->
  launch Arr kernel template face co sign_n sign_f mid r_ s nb nwn lookup_id
    l_l l_u m_l m_u n_l n_u updatecoeffs ID field inc_field block grid st r
  = st r.
Proof. intros; unfold launch; now apply upd_other. Qed.

(** A launch on the device arrays keeps them in step with the host call
    on the host arrays. *)
Lemma launch_mirrors_electric pairs template
    face co sign_n sign_f mid r_ s nb nwn lookup_id l_l l_u m_l m_u n_l n_u
    c cg i ig f fg n ng block grid (host_ device : store Arr) :
  same_electric_os Arr K KO ompthreads ->
  NoDup (map fst pairs) -> NoDup (map snd pairs) ->
  In (c, cg) pairs -> In (i, ig) pairs -> In (f, fg) pairs ->
  In (n, ng) pairs ->
  mirrors Arr pairs host_ device ->
  mirrors Arr pairs
    (cython_update_electric_os Arr K c i face l_l l_u m_l m_u n_l n_u nwn
       lookup_id f n co sign_n sign_f mid r_ s nb ompthreads host_)
    (launch Arr (k_hsg_update_electric_os Arr KO) template face co sign_n
       sign_f mid r_ s nb nwn lookup_id l_l l_u m_l m_u n_l n_u cg ig fg ng
       block grid device).
Proof.
  intros Hcorr Hf Hs Hc Hi Hfl Hn Hm h d Hin.
  unfold cython_update_electric_os, launch, upd.
  destruct (Pos.eqb_spec d fg) as [-> | Hd], (Pos.eqb_spec h f) as [-> | Hh].
  - rewrite (Hm _ _ Hc), (Hm _ _ Hi), (Hm _ _ Hfl), (Hm _ _ Hn).
    apply Hcorr.
  - exfalso; apply Hh; exact (pairs_snd_inj _ _ _ _ Hs Hin Hfl).
  - exfalso; apply Hd; exact (pairs_fst_inj _ _ _ _ Hf Hin Hfl).
  - exact (Hm _ _ Hin).
Qed.

Lemma launch_mirrors_magnetic pairs template
    face co sign_n sign_f mid r_ s nb nwn lookup_id l_l l_u m_l m_u n_l n_u
    c cg i ig f fg n ng block grid (host_ device : store Arr) :
  same_magnetic_os Arr K KO ompthreads ->
  NoDup (map fst pairs) -> NoDup (map snd pairs) ->
  In (c, cg) pairs -> In (i, ig) pairs -> In (f, fg) pairs ->
  In (n, ng) pairs ->
  mirrors Arr pairs host_ device ->
  mirrors Arr pairs
    (cython_update_magnetic_os Arr K c i face l_l l_u m_l m_u n_l n_u nwn
       lookup_id f n co sign_n sign_f mid r_ s nb ompthreads host_)
    (launch Arr (k_hsg_update_magnetic_os Arr KO) template face co sign_n
       sign_f mid r_ s nb nwn lookup_id l_l l_u m_l m_u n_l n_u cg ig fg ng
       block grid device).
Proof.
  intros Hcorr Hf Hs Hc Hi Hfl Hn Hm h d Hin.
  unfold cython_update_magnetic_os, launch, upd.
  destruct (Pos.eqb_spec d fg) as [-> | Hd], (Pos.eqb_spec h f) as [-> | Hh].
  - rewrite (Hm _ _ Hc), (Hm _ _ Hi), (Hm _ _ Hfl), (Hm _ _ Hn).
    apply Hcorr.
  - exfalso; apply Hh; exact (pairs_snd_inj _ _ _ _ Hs Hin Hfl).
  - exfalso; apply Hd; exact (pairs_fst_inj _ _ _ _ Hf Hin Hfl).
  - exact (Hm _ _ Hin).
Qed.

Ltac position a l :=
  lazymatch l with
  | a :: _ => constr:(O)
  | _ :: ?t => let n := position a t in constr:(S n)
  end.

(** [a <> b] for two arrays at different places of a list known to have
    no repetition. *)
Ltac distinct :=
  match goal with
  | H : NoDup ?l |- ?a <> ?b =>
      let i := position a l in
      let j := position b l in
      exact (nodup_positions l i j a b H eq_refl eq_refl
               ltac:(discriminate))
  end.

Ltac lookups :=
  repeat first
    [ rewrite copy_same
    | rewrite copy_other by distinct
    | rewrite launch_frame by distinct ].

Ltac unwrap Hfit :=
  repeat match goal with
    | |- context [int32 ?x] =>
        first [ change (int32 x) with x
              | rewrite (Hfit x) by (cbn; auto 40) ]
    end.



End CUDAOSProperties.

Section CUDAOSWitnesses.

Import HSG CUDAOS Example CUDAOSExample.

Lemma recording_same_electric :
  same_electric_os (list Z) recording recording_os 4.
Proof. unfold same_electric_os; intros; reflexivity. Defined.

Lemma recording_same_magnetic :
  same_magnetic_os (list Z) recording recording_os 4.
Proof. unfold same_magnetic_os; intros; reflexivity. Defined.

Lemma example_electric_fits :
  Forall fits (os_scalars cuda_sub_grid (electric_lookups cuda_main_grid)).
Proof. repeat constructor. Defined.

Lemma example_magnetic_fits :
  Forall fits (os_scalars cuda_sub_grid (magnetic_lookups cuda_main_grid)).
Proof. repeat constructor. Defined.

Ltac no_repetition :=
  repeat (constructor;
          [ cbn; intros H;
            repeat (destruct H as [H | H]; [discriminate H|]); exact H
          | ]);
  constructor.

Lemma example_electric_distinct :
  all_distinct (electric_os_arrays cuda_sub_grid cuda_main_grid).
Proof. unfold all_distinct; cbn; no_repetition. Defined.

Lemma example_magnetic_distinct :
  all_distinct (magnetic_os_arrays cuda_sub_grid cuda_main_grid).
Proof. unfold all_distinct; cbn; no_repetition. Defined.

Lemma example_not_device_electric :
  ~ In (Ex cuda_main_grid)
       (map snd (electric_os_arrays cuda_sub_grid cuda_main_grid)).
Proof.
  cbn; intros H; repeat (destruct H as [H | H]; [discriminate H|]); exact H.
Defined.

Lemma example_not_device_magnetic :
  ~ In (Hz cuda_main_grid)
       (map snd (magnetic_os_arrays cuda_sub_grid cuda_main_grid)).
Proof.
  cbn; intros H; repeat (destruct H as [H | H]; [discriminate H|]); exact H.
Defined.


Lemma example_mirrored :
  st0 (Ex_gpu cuda_sub_grid) = st0 (Ex cuda_sub_grid)
  /\ st0 (Ey_gpu cuda_sub_grid) = st0 (Ey cuda_sub_grid)
  /\ st0 (Ez_gpu cuda_sub_grid) = st0 (Ez cuda_sub_grid).
Proof. repeat split. Defined.


End CUDAOSWitnesses.
